(** * Loan, SIP, goal-seeking and withdrawal engines of the financial planner

    Shallow embedding of the calculation engines of the financial planner
    (src/js/core/DataModels.js, src/v1/js/core/LoanCalculator.js,
    src/js/core/GoalSeeker.js, src/js/core/SIPCalculator.js,
    src/v2/js/core/EMICalculator.js).

    Numbers.  JavaScript numbers are modelled as exact rationals [Q]; the
    engines only use +, -, *, /, comparisons, [Math.min]/[Math.max],
    [Math.ceil], [Math.pow] with an integer exponent (modelled by
    [Qpow]) and [Math.log] inside [Math.ceil(Math.log(a) / Math.log(b))]
    (modelled by its exact value, the least integer [N] with
    [N >= ln a / ln b], found by comparing powers of [b] with [a]).
    Where the loan engine can produce [NaN] (the logarithm of a negative
    number) the value is an [option Q], [None] standing for [NaN].
    Month counters and tenures are integers ([Z]); durations in years are
    natural numbers. *)

From Stdlib Require Import QArith Qround Qabs Lqa ZArith Lia List String Bool Sorted Permutation.
Import ListNotations.
Open Scope Q_scope.

(** ** Arithmetic helpers *)

(** [a < b] on numbers. *)
Definition Qltb (a b : Q) : bool := negb (Qle_bool b a).

(** [Math.pow(x, n)] for a natural-number exponent. *)
Fixpoint Qpow (x : Q) (n : nat) : Q :=
  match n with
  | O => 1
  | S k => x * Qpow x k
  end.

(** [Math.min(a, b)] and [Math.max(a, b)] on non-NaN numbers. *)
Definition js_min (a b : Q) : Q := if Qle_bool a b then a else b.
Definition js_max (a b : Q) : Q := if Qle_bool b a then a else b.

(** [Math.ceil(q)]. *)
Definition js_ceil (q : Q) : Q := inject_Z (Qceiling q).

(** A JavaScript number that may be [NaN]: [None] is [NaN].  Arithmetic
    with [NaN] yields [NaN]; every comparison with [NaN] is false. *)
Definition jsnum := option Q.

(** Sums and differences are kept in lowest terms: [Qred] only normalises
    the representation ([Qred_correct : Qred q == q]) and keeps the
    month-by-month loops computable. *)

Definition jadd (a b : jsnum) : jsnum :=
  match a, b with Some x, Some y => Some (Qred (x + y)) | _, _ => None end.
Definition jsub (a b : jsnum) : jsnum :=
  match a, b with Some x, Some y => Some (Qred (x - y)) | _, _ => None end.
Definition jlt (a b : jsnum) : bool :=
  match a, b with Some x, Some y => Qltb x y | _, _ => false end.
Definition jle (a b : jsnum) : bool :=
  match a, b with Some x, Some y => Qle_bool x y | _, _ => false end.
(** [Math.min] / [Math.max]: [NaN] if either argument is [NaN]. *)
Definition jmin (a b : jsnum) : jsnum :=
  match a, b with Some x, Some y => Some (js_min x y) | _, _ => None end.
Definition jmax (a b : jsnum) : jsnum :=
  match a, b with Some x, Some y => Some (js_max x y) | _, _ => None end.

(** ** Loan data model (src/js/core/DataModels.js) *)

Module Loan.

Inductive Strategy := REDUCE_TENURE | REDUCE_EMI.

Definition Strategy_eqb (a b : Strategy) : bool :=
  match a, b with
  | REDUCE_TENURE, REDUCE_TENURE | REDUCE_EMI, REDUCE_EMI => true
  | _, _ => false
  end.

(** [class InterestRatePeriod]; [endMonth = None] is [null]. *)
Record InterestRatePeriod := mkRatePeriod {
  startMonth : Z;
  rate : Q;
  endMonth : option Z
}.

Definition isActiveForMonth (p : InterestRatePeriod) (month : Z) : bool :=
  (startMonth p <=? month)%Z &&
  match endMonth p with None => true | Some e => (month <=? e)%Z end.

(** [class MonthlyPrepayment]. *)
Record MonthlyPrepayment := mkMonthly {
  mp_amount : Q;
  mp_startMonth : Z;
  mp_endMonth : option Z;
  mp_strategy : option Strategy
}.

Definition mp_isActiveForMonth (p : MonthlyPrepayment) (month : Z) : bool :=
  (mp_startMonth p <=? month)%Z &&
  match mp_endMonth p with None => true | Some e => (month <=? e)%Z end.

(** [class YearlyPrepayment]. *)
Record YearlyPrepayment := mkYearly {
  yp_amount : Q;
  yp_targetMonth : Z;
  yp_startYear : Z;
  yp_endYear : option Z;
  yp_strategy : option Strategy
}.

(** [Math.ceil(month / 12)] and [((month - 1) % 12) + 1]; JavaScript's [%]
    truncates like [Z.rem]. *)
Definition yearOfLoan (month : Z) : Z := (- ((- month) / 12))%Z.
Definition monthInYear (month : Z) : Z := (Z.rem (month - 1) 12 + 1)%Z.

Definition yp_isActiveForMonth (p : YearlyPrepayment) (month : Z) : bool :=
  (monthInYear month =? yp_targetMonth p)%Z &&
  (yp_startYear p <=? yearOfLoan month)%Z &&
  match yp_endYear p with None => true | Some e => (yearOfLoan month <=? e)%Z end.

(** [class OneTimePrepayment]. *)
Record OneTimePrepayment := mkOneTime {
  op_amount : Q;
  op_month : Z;
  op_strategy : option Strategy
}.

Definition op_isActiveForMonth (p : OneTimePrepayment) (month : Z) : bool :=
  (month =? op_month p)%Z.

Record PrepaymentStrategy := mkPrepayments {
  monthly : list MonthlyPrepayment;
  yearly : list YearlyPrepayment;
  oneTime : list OneTimePrepayment
}.

(** [class LoanConfiguration]. *)
Record LoanConfiguration := mkConfig {
  principal : Q;
  baseTenureMonths : Z;
  interestRateSchedule : list InterestRatePeriod;
  prepaymentStrategy : PrepaymentStrategy;
  defaultStrategy : Strategy
}.

(** [new LoanConfiguration()]. *)
Definition emptyConfig : LoanConfiguration :=
  mkConfig 0 0 [] (mkPrepayments [] [] []) REDUCE_TENURE.

(** [Array.prototype.sort] with comparator [a.startMonth - b.startMonth]:
    a stable sort, here a stable insertion sort. *)
Fixpoint insert_by_start (x : InterestRatePeriod) (l : list InterestRatePeriod)
  : list InterestRatePeriod :=
  match l with
  | [] => [x]
  | y :: ys => if (startMonth x <=? startMonth y)%Z then x :: y :: ys
               else y :: insert_by_start x ys
  end.

Fixpoint sort_by_start (l : list InterestRatePeriod) : list InterestRatePeriod :=
  match l with
  | [] => []
  | x :: xs => insert_by_start x (sort_by_start xs)
  end.

Definition set_schedule (c : LoanConfiguration) (s : list InterestRatePeriod) :=
  mkConfig (principal c) (baseTenureMonths c) s (prepaymentStrategy c)
           (defaultStrategy c).

Definition set_prepayments (c : LoanConfiguration) (p : PrepaymentStrategy) :=
  mkConfig (principal c) (baseTenureMonths c) (interestRateSchedule c) p
           (defaultStrategy c).

(** [addRatePeriod]: push, then sort by start month. *)
Definition addRatePeriod (c : LoanConfiguration) (s : Z) (r : Q) (e : option Z) :=
  set_schedule c (sort_by_start (interestRateSchedule c ++ [mkRatePeriod s r e])).

Definition addMonthlyPrepayment (c : LoanConfiguration) (a : Q) (s : Z)
  (e : option Z) (st : option Strategy) :=
  let p := prepaymentStrategy c in
  set_prepayments c (mkPrepayments (monthly p ++ [mkMonthly a s e st])
                                   (yearly p) (oneTime p)).

Definition addYearlyPrepayment (c : LoanConfiguration) (a : Q) (tm sy : Z)
  (ey : option Z) (st : option Strategy) :=
  let p := prepaymentStrategy c in
  set_prepayments c (mkPrepayments (monthly p)
                                   (yearly p ++ [mkYearly a tm sy ey st]) (oneTime p)).

Definition addOneTimePrepayment (c : LoanConfiguration) (a : Q) (m : Z)
  (st : option Strategy) :=
  let p := prepaymentStrategy c in
  set_prepayments c (mkPrepayments (monthly p) (yearly p)
                                   (oneTime p ++ [mkOneTime a m st])).

(** [getInterestRateForMonth]: the loop overwrites [applicableRate] with
    every active period; the fallback is [schedule[0]?.rate || 0] (a rate
    of [0] is falsy and gives [0] as well). *)
Definition getInterestRateForMonth (sched : list InterestRatePeriod) (month : Z) : Q :=
  let applicable :=
    fold_left (fun acc p => if isActiveForMonth p month then Some (rate p) else acc)
              sched None in
  match applicable with
  | Some r => r
  | None => match sched with [] => 0 | p :: _ => rate p end
  end.

(** [validate()]: the violations, one constructor per message. *)
Inductive ConfigError :=
| PrincipalNotPositive            (* 'Principal must be greater than 0' *)
| TenureNotPositive               (* 'Tenure must be greater than 0' *)
| NoRatePeriod                    (* 'At least one interest rate period is required' *)
| ExplicitOverlapAt (m : Z).      (* 'Rate periods have explicit overlap at month m' *)

(** The pairwise check of adjacent periods [i], [i + 1]. *)
Fixpoint overlap_errors (l : list InterestRatePeriod) : list ConfigError :=
  match l with
  | cur :: ((nxt :: _) as rest) =>
      match endMonth cur with
      | Some e => if (startMonth nxt <=? e)%Z then [ExplicitOverlapAt (startMonth nxt)]
                  else []
      | None => []
      end ++ overlap_errors rest
  | _ => []
  end.

Definition validate (c : LoanConfiguration) : list ConfigError :=
  (if Qle_bool (principal c) 0 then [PrincipalNotPositive] else []) ++
  (if (baseTenureMonths c <=? 0)%Z then [TenureNotPositive] else []) ++
  match interestRateSchedule c with [] => [NoRatePeriod] | _ => [] end ++
  overlap_errors (interestRateSchedule c).

(** ** The loan engine (src/v1/js/core/LoanCalculator.js) *)

(** The object returned by [getPrepaymentForMonth]. *)
Record PrepaymentInfo := mkPrepInfo {
  pi_amount : Q;
  pi_type : string;
  pi_strategy : option Strategy
}.

(** [if (prep.strategy) strategy = prep.strategy;] *)
Definition override (acc s : option Strategy) : option Strategy :=
  match s with Some x => Some x | None => acc end.

(** One [forEach] block of [getPrepaymentForMonth]: every active entry
    adds its amount and its label and, when it has one, its strategy. *)
Definition scan {A : Type} (isActive : A -> bool) (amount : A -> Q) (label : string)
  (strategy : A -> option Strategy) (l : list A)
  (acc : Q * list string * option Strategy) : Q * list string * option Strategy :=
  fold_left (fun '(a, t, st) p =>
               if isActive p then (a + amount p, (t ++ [label])%list, override st (strategy p))
               else (a, t, st))
            l acc.

(** [getPrepaymentForMonth]: the monthly, then the yearly, then the
    one-time list, each scanned in order. *)
Definition getPrepaymentForMonth (c : LoanConfiguration) (month : Z) : PrepaymentInfo :=
  let ps := prepaymentStrategy c in
  let '(a, t, st) :=
    scan (fun p => op_isActiveForMonth p month) op_amount "lump-sum" op_strategy (oneTime ps)
      (scan (fun p => yp_isActiveForMonth p month) yp_amount "yearly" yp_strategy (yearly ps)
        (scan (fun p => mp_isActiveForMonth p month) mp_amount "monthly" mp_strategy
              (monthly ps) (0, [], None))) in
  mkPrepInfo a (match t with [] => "none"%string | _ => String.concat " + " t end) st.

(** [calculateEMI(principal, annualRate, months)].  For the non-negative
    rates the engine receives, [(1 + r)^months - 1 > 0] when [r <> 0]. *)
Definition calculateEMI (principal annualRate : Q) (months : Z) : Q :=
  if Qle_bool principal 0 || (months <=? 0)%Z then 0
  else
    let r := annualRate / 100 / 12 in
    if Qeq_bool r 0 then principal / inject_Z months
    else Qred (principal * r * Qpow (1 + r) (Z.to_nat months)
               / (Qpow (1 + r) (Z.to_nat months) - 1)).

(** [calculateEMI] called with a month count that may be [NaN]: with
    [months = NaN] neither guard fires and the result is [NaN]
    ([principal / NaN], or [Math.pow(1 + r, NaN)]). *)
Definition calculateEMI_js (principal annualRate : Q) (months : option Z) : jsnum :=
  match months with
  | Some m => Some (calculateEMI principal annualRate m)
  | None => if Qle_bool principal 0 then Some 0 else None
  end.

(** The least [N] in [n, n + fuel) with [N >= ln x / ln b], i.e. with
    [b^N >= x] when [b > 1] and [b^N <= x] when [0 < b < 1]. *)
Fixpoint first_months (b x : Q) (n : Z) (fuel : nat) : option Z :=
  match fuel with
  | O => None
  | S k =>
      if (if Qltb 1 b then Qle_bool x (Qpow b (Z.to_nat n))
          else Qle_bool (Qpow b (Z.to_nat n)) x)
      then Some n else first_months b x (n + 1) k
  end.

(** [Math.ceil(Math.log(x) / Math.log(b))] followed by the sanity checks
    [if (months < 1) return 1; if (months > cap) return cap;], for [x > 0],
    [b > 0], [b <> 1] and [cap >= 1]. *)
Definition ceil_log_ratio_clamped (x b : Q) (cap : Z) : Z :=
  match first_months b x 1 (Z.to_nat cap) with Some n => n | None => cap end.

(** [estimateRemainingMonths(balance, annualRate)], reading
    [this.currentEMI]; [None] is the [NaN] it returns when
    [currentEMI - balance * r < 0] (the logarithm of a negative ratio). *)
Definition estimateRemainingMonths (baseTenure : Z) (currentEMI : jsnum)
  (balance annualRate : Q) : option Z :=
  if Qle_bool balance 0 then Some 0%Z
  else
    match currentEMI with
    | None => None
    | Some e =>
        if Qle_bool e 0 then Some 0%Z
        else
          let r := annualRate / 100 / 12 in
          let cap := (baseTenure * 2)%Z in
          if Qeq_bool r 0 then Some (Qceiling (balance / e))
          else
            let d := e - balance * r in
            if Qltb d 0 then None
            else if Qeq_bool d 0 then Some cap    (* log(+Infinity) > cap *)
            else
              let b := 1 + r in
              if Qltb 0 b then Some (ceil_log_ratio_clamped (e / d) b cap)
              else if Qeq_bool b 0 then Some 1%Z (* log(0) = -Infinity: ratio -0 *)
              else None                          (* log of a negative base *)
    end.

(** One row of [this.amortizationSchedule]. *)
Record Row := mkRow {
  row_month : Z;
  row_balance : jsnum;
  row_interest : Q;
  row_principal : jsnum;
  row_emi : jsnum;
  row_prepayment : jsnum;
  row_prepaymentType : string;
  row_rate : Q;
  row_strategy : option Strategy
}.

(** The local variables of [calculate] carried by the [while] loop, and
    the fields [this.currentEMI] and [this.amortizationSchedule]. *)
Record LoopState := mkState {
  st_month : Z;
  st_balance : jsnum;
  st_emi : jsnum;
  st_totalInterest : jsnum;
  st_totalPrincipal : jsnum;
  st_schedule : list Row
}.

(** One iteration of the [while] loop of [calculate], entered with a
    finite [balance] [b]. *)
Definition step (c : LoanConfiguration) (s : LoopState) (b : Q) : LoopState :=
  let month := (st_month s + 1)%Z in
  let currentRate := getInterestRateForMonth (interestRateSchedule c) month in
  let monthlyRate := currentRate / 100 / 12 in
  let interest := Qred (b * monthlyRate) in
  let principal0 := jmin (jsub (st_emi s) (Some interest)) (Some b) in
  let principal1 := if jlt principal0 (Some 0) then Some 0 else principal0 in
  let info := getPrepaymentForMonth c month in
  let strategy := match pi_strategy info with Some x => x | None => defaultStrategy c end in
  let '(totalPrepayment, principal2, emi) :=
    if Qltb 0 (pi_amount info) then
      let tp := jmin (Some (pi_amount info)) (jsub (Some b) principal1) in
      match strategy with
      | REDUCE_EMI =>
          let p := jadd principal1 tp in
          match jsub (Some b) p with
          | Some nb =>
              if Qltb (1 # 100) nb then
                let remaining :=
                  estimateRemainingMonths (baseTenureMonths c) (st_emi s) nb currentRate in
                let emi1 := calculateEMI_js nb currentRate remaining in
                let minEMI := Qred (nb * monthlyRate * (101 # 100)) in
                (tp, p, if jlt emi1 (Some minEMI) then Some minEMI else emi1)
              else (tp, p, Some 0)
          | None => (tp, p, Some 0)            (* NaN > 0.01 is false *)
          end
      | REDUCE_TENURE => (tp, jadd principal1 tp, st_emi s)
      end
    else (Some (pi_amount info), principal1, st_emi s) in
  let principal3 := if jlt (Some b) principal2 then Some b else principal2 in
  let balance' := jsub (Some b) principal3 in
  let row := mkRow month (jmax balance' (Some 0)) interest principal3 emi
                   totalPrepayment (pi_type info) currentRate
                   (if jlt (Some 0) totalPrepayment then Some strategy else None) in
  mkState month balance' emi
          (jadd (st_totalInterest s) (Some interest))
          (jadd (st_totalPrincipal s) principal3)
          (st_schedule s ++ [row]).

(** The [while (balance > 0.01 && month < maxMonths)] loop; [fuel] is
    [maxMonths - month], so [month < maxMonths] holds exactly while fuel
    remains.  [if (balance <= 0.01) { balance = 0; break; }] ends it. *)
Fixpoint calc_loop (c : LoanConfiguration) (fuel : nat) (s : LoopState) : LoopState :=
  match fuel with
  | O => s
  | S k =>
      match st_balance s with
      | Some b =>
          if Qltb (1 # 100) b then
            let s' := step c s b in
            if jle (st_balance s') (Some (1 # 100))
            then mkState (st_month s') (Some 0) (st_emi s') (st_totalInterest s')
                         (st_totalPrincipal s') (st_schedule s')
            else calc_loop c k s'
          else s
      | None => s                                   (* NaN > 0.01 is false *)
      end
  end.

(** [calculateInitialEMI] ([interestRateSchedule[0]] exists once the
    configuration is valid). *)
Definition calculateInitialEMI (c : LoanConfiguration) : Q :=
  let r := match interestRateSchedule c with p :: _ => rate p | [] => 0 end in
  calculateEMI (principal c) r (baseTenureMonths c).

(** The loop of [calculateOriginalLoan]: (month, balance, totalInterest). *)
Fixpoint original_loop (c : LoanConfiguration) (emi : Q) (fuel : nat)
  (month : Z) (balance totalInterest : Q) : Z * Q * Q :=
  match fuel with
  | O => (month, balance, totalInterest)
  | S k =>
      if Qltb (1 # 100) balance then
        let month' := (month + 1)%Z in
        let currentRate := getInterestRateForMonth (interestRateSchedule c) month' in
        let monthlyRate := currentRate / 100 / 12 in
        let interest := Qred (balance * monthlyRate) in
        let p0 := js_min (Qred (emi - interest)) balance in
        let p := if Qltb p0 0 then 0 else p0 in
        let ti := Qred (totalInterest + interest) in
        let b' := Qred (balance - p) in
        if Qle_bool b' (1 # 100) then (month', b', ti)
        else original_loop c emi k month' b' ti
      else (month, balance, totalInterest)
  end.

Record OriginalLoan := mkOriginal { ol_months : Z; ol_totalInterest : Q }.

(** [calculateOriginalLoan]: no prepayments, safety limit [2 * tenure]. *)
Definition calculateOriginalLoan (c : LoanConfiguration) : OriginalLoan :=
  let '(m, _, ti) :=
    original_loop c (calculateInitialEMI c) (Z.to_nat (baseTenureMonths c * 2)) 0
                  (principal c) 0 in
  mkOriginal m ti.

(** [calculateAverageRate]. *)
Definition calculateAverageRate (c : LoanConfiguration) (rows : list Row) : Q :=
  match rows with
  | [] => match interestRateSchedule c with p :: _ => rate p | [] => 0 end
  | _ => fold_left (fun acc r => acc + row_rate r) rows 0 / inject_Z (Z.of_nat (List.length rows))
  end.

Record LoanResult := mkResult {
  months : Z;
  totalInterest : jsnum;
  totalPrincipal : jsnum;
  totalPayment : jsnum;
  interestSaved : jsnum;
  tenureReduced : Z;
  originalEMI : Q;
  finalEMI : jsnum;
  originalMonths : Z;
  originalTotalInterest : Q;
  amortizationSchedule : list Row;
  averageRate : Q
}.

(** [calculate()] on a fresh [AdvancedLoanCalculator]: [inl] carries the
    violations of the thrown ['Invalid configuration'] error. *)
Definition calculate (c : LoanConfiguration) : list ConfigError + LoanResult :=
  match validate c with
  | _ :: _ as errs => inl errs
  | [] =>
      let emi0 := calculateInitialEMI c in
      let orig := calculateOriginalLoan c in
      let s := calc_loop c (Z.to_nat (baseTenureMonths c * 3))
                         (mkState 0 (Some (principal c)) (Some emi0) (Some 0) (Some 0) []) in
      inr (mkResult
             (st_month s)
             (st_totalInterest s)
             (st_totalPrincipal s)
             (jadd (st_totalPrincipal s) (st_totalInterest s))
             (jmax (jsub (Some (ol_totalInterest orig)) (st_totalInterest s)) (Some 0))
             (ol_months orig - st_month s)%Z
             emi0
             (st_emi s)
             (ol_months orig)
             (ol_totalInterest orig)
             (st_schedule s)
             (calculateAverageRate c (st_schedule s)))
  end.

End Loan.

(** ** Reference notions for the loan engine *)

Module LoanSpec.
Import Loan.

(** The rate of the last active entry of a schedule, read from the end. *)
Definition last_active_rate (sched : list InterestRatePeriod) (month : Z) : option Q :=
  match find (fun p => isActiveForMonth p month) (rev sched) with
  | Some p => Some (rate p)
  | None => None
  end.

(** The override of the last active entry of a list that carries one. *)
Definition last_override {A : Type} (isActive : A -> bool)
  (strategy : A -> option Strategy) (l : list A) : option Strategy :=
  match find (fun p => isActive p && match strategy p with Some _ => true | None => false end)
             (rev l) with
  | Some p => strategy p
  | None => None
  end.

Definition is_reduce_emi (s : option Strategy) : bool :=
  match s with Some REDUCE_EMI => true | _ => false end.

(** No entry and not the default asks for [REDUCE_EMI]. *)
Definition tenure_only (c : LoanConfiguration) : bool :=
  let ps := prepaymentStrategy c in
  negb (is_reduce_emi (Some (defaultStrategy c))) &&
  forallb (fun p => negb (is_reduce_emi (mp_strategy p))) (monthly ps) &&
  forallb (fun p => negb (is_reduce_emi (yp_strategy p))) (yearly ps) &&
  forallb (fun p => negb (is_reduce_emi (op_strategy p))) (oneTime ps).

(** Every rate of the schedule is non-negative. *)
Definition rates_nonneg (c : LoanConfiguration) : bool :=
  forallb (fun p => Qle_bool 0 (rate p)) (interestRateSchedule c).

(** Every rate of the schedule is zero. *)
Definition rates_zero (c : LoanConfiguration) : bool :=
  forallb (fun p => Qeq_bool (rate p) 0) (interestRateSchedule c).

(** The prepayment cap of a ledger row against the balance [b] it starts
    from: [0 <= prepayment <= b - scheduledPrincipal] (false on [NaN]). *)
Definition row_prepayment_capped (b : Q) (sched_principal : Q) (r : Row) : bool :=
  match row_prepayment r with
  | Some x => Qle_bool 0 x && Qle_bool x (b - sched_principal)
  | None => false
  end.

(** One month of the no-prepayment baseline: the scheduled principal
    [max(0, min(emi - interest, balance))] ... *)
Definition sched_principal (emi interest balance : Q) : Q :=
  let p0 := js_min (Qred (emi - interest)) balance in
  if Qltb p0 0 then 0 else p0.

(** ... and one month of [calculate] under [REDUCE_TENURE] with the
    prepayment [amount] of the month: the new balance. *)
Definition tenure_next (emi interest balance amount : Q) : Q :=
  let sp := sched_principal emi interest balance in
  let p := if Qltb 0 amount then Qred (sp + js_min amount (Qred (balance - sp))) else sp in
  Qred (balance - (if Qltb balance p then balance else p)).

(** The monthly rate of month [m]. *)
Definition monthly_rate (c : LoanConfiguration) (m : Z) : Q :=
  getInterestRateForMonth (interestRateSchedule c) m / 100 / 12.

End LoanSpec.

(** ** Concrete loan configurations *)

Module LoanExamples.
Import Loan.

(** 100000 over 12 months at 12% a year, the rate rising to 300% a year
    from month 2 on. *)
Definition hike : LoanConfiguration :=
  addRatePeriod
    (addRatePeriod (mkConfig 100000 12 [] (mkPrepayments [] [] []) REDUCE_TENURE)
                   1 12 None)
    2 300 None.

(** A monthly prepayment of 1000 from month 2 on, reducing the EMI. *)
Definition prepay_emi : LoanConfiguration :=
  addMonthlyPrepayment hike 1000 2 None (Some REDUCE_EMI).

(** A single prepayment of 1000 in month 1 (default strategy). *)
Definition prepay_tenure : LoanConfiguration :=
  addOneTimePrepayment hike 1000 1 None.

(** 1200 over 12 months, 0% in month 1 then 12% a year, with a single
    prepayment of 1 in month 2 reducing the EMI. *)
Definition small_emi : LoanConfiguration :=
  addOneTimePrepayment
    (addRatePeriod
       (addRatePeriod (mkConfig 1200 12 [] (mkPrepayments [] [] []) REDUCE_TENURE)
                      1 0 (Some 1%Z))
       2 12 None)
    1 2 (Some REDUCE_EMI).

(** 10000 over 12 months at 12% a year with a monthly prepayment of 500. *)
Definition steady : LoanConfiguration :=
  addMonthlyPrepayment
    (addRatePeriod (mkConfig 10000 12 [] (mkPrepayments [] [] []) REDUCE_TENURE)
                   1 12 None)
    500 1 None None.

(** Three overrides added one-time first, then monthly, then yearly: a
    one-time [REDUCE_EMI] prepayment in month 3, a monthly [REDUCE_EMI]
    prepayment from month 1 and a yearly [REDUCE_TENURE] prepayment in
    the third month of every year. *)
Definition mixed : LoanConfiguration :=
  addYearlyPrepayment
    (addMonthlyPrepayment
       (addOneTimePrepayment
          (addRatePeriod (mkConfig 10000 12 [] (mkPrepayments [] [] []) REDUCE_TENURE)
                         1 12 None)
          100 3 (Some REDUCE_EMI))
       50 1 None (Some REDUCE_EMI))
    10 3 1 None (Some REDUCE_TENURE).

(** 1200 over 12 months at 0%, with a monthly prepayment of 100 from
    month 2 on reducing the EMI. *)
Definition zero_rate : LoanConfiguration :=
  addMonthlyPrepayment
    (addRatePeriod (mkConfig 1200 12 [] (mkPrepayments [] [] []) REDUCE_TENURE) 1 0 None)
    100 2 None (Some REDUCE_EMI).

(** A config whose schedule has rates 8 and 9.5. *)
Definition two_rates : LoanConfiguration :=
  mkConfig 100000 12 [mkRatePeriod 1 8 (Some 6%Z); mkRatePeriod 7 (19 # 2) None]
           (mkPrepayments [] [] []) REDUCE_TENURE.

End LoanExamples.

(** ** The SIP engine (src/js/core/DataModels.js, src/js/core/SIPCalculator.js) *)

Module SIP.

(** [class ReturnPeriod]; [endYear = None] is [null]. *)
Record ReturnPeriod := mkReturnPeriod {
  rp_startYear : Z;
  rp_endYear : option Z;
  rp_annualReturn : Q
}.

Definition rp_isActiveForYear (p : ReturnPeriod) (year : Z) : bool :=
  (rp_startYear p <=? year)%Z &&
  match rp_endYear p with None => true | Some e => (year <=? e)%Z end.

(** [class ReturnScenario]. *)
Record ReturnScenario := mkScenario {
  rs_name : string;
  periods : list ReturnPeriod
}.

(** [periods.sort((a, b) => a.startYear - b.startYear)], stable. *)
Fixpoint insert_by_startYear (x : ReturnPeriod) (l : list ReturnPeriod) : list ReturnPeriod :=
  match l with
  | [] => [x]
  | y :: ys => if (rp_startYear x <=? rp_startYear y)%Z then x :: y :: ys
               else y :: insert_by_startYear x ys
  end.

Fixpoint sort_by_startYear (l : list ReturnPeriod) : list ReturnPeriod :=
  match l with
  | [] => []
  | x :: xs => insert_by_startYear x (sort_by_startYear xs)
  end.

Definition addPeriod (s : ReturnScenario) (startYear : Z) (endYear : option Z)
  (annualReturn : Q) : ReturnScenario :=
  mkScenario (rs_name s)
             (sort_by_startYear (periods s ++ [mkReturnPeriod startYear endYear annualReturn])).

(** [getReturnForYear]: the first active period, else
    [this.periods[0]?.annualReturn || 0]. *)
Definition getReturnForYear (s : ReturnScenario) (year : Z) : Q :=
  match find (fun p => rp_isActiveForYear p year) (periods s) with
  | Some p => rp_annualReturn p
  | None => match periods s with p :: _ => rp_annualReturn p | [] => 0 end
  end.

(** [class StepUpSchedule]. *)
Record StepUpSchedule := mkStepUp {
  su_startYear : Z;
  su_endYear : option Z;
  su_stepUpPercent : Q
}.

(** [class SIPConfiguration] (the withdrawal plan, unused by [calculate],
    is left out); [returnScenarios] maps names to scenarios, the latest
    assignment first. *)
Record SIPConfiguration := mkSIPConfig {
  monthlyAmount : Q;
  durationYears : nat;
  stepUpSchedules : list StepUpSchedule;
  returnScenarios : list (string * ReturnScenario);
  inflationRate : Q
}.

(** [this.config.returnScenarios[scenarioName]]. *)
Definition lookup_scenario (c : SIPConfiguration) (name : string) : option ReturnScenario :=
  match find (fun e => String.eqb (fst e) name) (returnScenarios c) with
  | Some e => Some (snd e)
  | None => None
  end.

(** [applySteUpSchedule]: the first schedule covering the year. *)
Definition applySteUpSchedule (c : SIPConfiguration) (currentSIP : Q) (year : Z) : Q :=
  match find (fun s => (su_startYear s <=? year)%Z &&
                       match su_endYear s with None => true | Some e => (year <=? e)%Z end)
             (stepUpSchedules c) with
  | Some s => currentSIP * (1 + su_stepUpPercent s / 100)
  | None => currentSIP
  end.

(** A sampled row of [this.schedule]. *)
Record SIPRow := mkSIPRow {
  sr_month : Z;
  sr_year : Z;
  sr_sipAmount : Q;
  sr_balance : Q;
  sr_inflationAdjusted : Q;
  sr_totalInvested : Q;
  sr_returnRate : Q
}.

(** The [for (let month = 1; month <= months; month++)] loop of
    [calculate]; [fuel] is the number of months left.  Returns
    [(balance, totalInvested, schedule)]. *)
Fixpoint sip_loop (c : SIPConfiguration) (scenario : ReturnScenario) (months : Z)
  (fuel : nat) (month : Z) (balance totalInvested currentSIP : Q) (rows : list SIPRow)
  : Q * Q * list SIPRow :=
  match fuel with
  | O => (balance, totalInvested, rows)
  | S k =>
      let year := Loan.yearOfLoan month in
      let currentSIP' :=
        if (1 <? month)%Z && (Z.rem (month - 1) 12 =? 0)%Z
        then applySteUpSchedule c currentSIP year else currentSIP in
      let returnRate := getReturnForYear scenario year in
      let monthlyReturn := returnRate / 100 / 12 in
      let totalInvested' := Qred (totalInvested + currentSIP') in
      let balance' := Qred ((balance + currentSIP') * (1 + monthlyReturn)) in
      let inflationAdjusted :=
        if Qltb 0 (inflationRate c)
        then balance' / Qpow (1 + inflationRate c / 100 / 12) (Z.to_nat month)
        else balance' in
      let rows' :=
        if (Z.rem month 6 =? 0)%Z || (month =? 1)%Z || (month =? months)%Z
        then rows ++ [mkSIPRow month year currentSIP' balance' inflationAdjusted
                               totalInvested' returnRate]
        else rows in
      sip_loop c scenario months k (month + 1) balance' totalInvested' currentSIP' rows'
  end.

(** The result of [calculate] ([effectiveReturn], a fractional power, is
    left out). *)
Record SIPResult := mkSIPResult {
  sip_success : bool;
  finalValue : Q;
  totalInvested : Q;
  wealthGain : Q;
  realValue : Q;
  sip_schedule : list SIPRow
}.

Inductive SIPError := ScenarioNotFound (name : string).

(** [AdvancedSIPCalculator.calculate(scenarioName)]. *)
Definition calculate (c : SIPConfiguration) (scenarioName : string) : SIPError + SIPResult :=
  match lookup_scenario c scenarioName with
  | None => inl (ScenarioNotFound scenarioName)
  | Some scenario =>
      let months := (Z.of_nat (durationYears c) * 12)%Z in
      let '(balance, totalInvested, rows) :=
        sip_loop c scenario months (Z.to_nat months) 1 0 0 (monthlyAmount c) [] in
      let realValue :=
        if Qltb 0 (inflationRate c)
        then balance / Qpow (1 + inflationRate c / 100) (durationYears c)
        else balance in
      inr (mkSIPResult true balance totalInvested (balance - totalInvested) realValue rows)
  end.

End SIP.

(** ** The goal seeker (src/js/core/GoalSeeker.js) *)

Module GoalSeeker.

Definition maxIterations : nat := 100.
Definition tolerance : Q := 100.

(** [calculateFutureValue(monthlySIP, years, annualReturn)]. *)
Definition calculateFutureValue (monthlySIP : Q) (years : nat) (annualReturn : Q) : Q :=
  let months := (years * 12)%nat in
  let r := annualReturn / 100 / 12 in
  if Qeq_bool r 0 then monthlySIP * inject_Z (Z.of_nat months)
  else Qred (monthlySIP * ((Qpow (1 + r) months - 1) / r) * (1 + r)).

(** How the [while] loop of [newtonRaphsonMethod] ends: [return sip]
    on convergence, or leaving the loop with [iterations] and [sip]. *)
Inductive NewtonExit :=
| Converged (sip : Q)
| Stopped (iterations : nat) (sip : Q).

(** The [while (iterations < this.maxIterations)] loop; [fuel] is
    [maxIterations - iterations]. *)
Fixpoint newton_loop (fv : Q -> Q) (target : Q) (fuel iterations : nat) (sip : Q)
  : NewtonExit :=
  match fuel with
  | O => Stopped iterations sip
  | S k =>
      let f := fv sip in
      let error := f - target in
      if Qltb (Qabs error) tolerance then Converged sip
      else
        let delta := 1 in
        let derivative := (fv (sip + delta) - f) / delta in
        if Qltb (Qabs derivative) (1 # 1000) then Stopped iterations sip
        else
          let sip' := Qred (sip - error / derivative) in
          newton_loop fv target k (S iterations) (if Qltb sip' 100 then 100 else sip')
  end.

(** The bisection loop shared by [binarySearchMethod] and
    [calculateStepUpSIP]; [fuel] is [maxIterations - iterations]. *)
Fixpoint bisect (fv : Q -> Q) (target : Q) (fuel : nat) (low high : Q) : Q :=
  match fuel with
  | O => (low + high) / 2
  | S k =>
      if Qltb 1 (high - low) then
        let mid := Qred ((low + high) / 2) in
        let f := fv mid in
        if Qltb (Qabs (f - target)) tolerance then mid
        else if Qltb f target then bisect fv target k mid high
        else bisect fv target k low mid
      else (low + high) / 2
  end.

(** [binarySearchMethod(targetAmount, years, annualReturn)]. *)
Definition binarySearchMethod (targetAmount : Q) (years : nat) (annualReturn : Q) : Q :=
  bisect (fun s => calculateFutureValue s years annualReturn) targetAmount maxIterations
         100 (targetAmount / 12).

(** [newtonRaphsonMethod(targetAmount, years, annualReturn)] (for
    [years >= 1]: the initial guess divides by [years * 12]). *)
Definition newtonRaphsonMethod (targetAmount : Q) (years : nat) (annualReturn : Q) : Q :=
  match newton_loop (fun s => calculateFutureValue s years annualReturn) targetAmount
                    maxIterations 0 (targetAmount / inject_Z (Z.of_nat (years * 12))) with
  | Converged sip => sip
  | Stopped iterations sip =>
      if (maxIterations <=? iterations)%nat
      then binarySearchMethod targetAmount years annualReturn
      else sip
  end.

(** The twelve months of one year of [calculateStepUpFutureValue]. *)
Fixpoint grow_months (n : nat) (monthlyReturn currentSIP totalAmount : Q) : Q :=
  match n with
  | O => totalAmount
  | S k => grow_months k monthlyReturn currentSIP
                       (Qred ((totalAmount + currentSIP) * (1 + monthlyReturn)))
  end.

(** The [for (let year = 1; year <= years; year++)] loop of
    [calculateStepUpFutureValue]; [fuel] is the number of years left. *)
Fixpoint stepup_fv_loop (fuel : nat) (year years : nat) (monthlyReturn stepUpPercent : Q)
  (currentSIP totalAmount : Q) : Q :=
  match fuel with
  | O => totalAmount
  | S k =>
      let totalAmount' := grow_months 12 monthlyReturn currentSIP totalAmount in
      let currentSIP' :=
        if (year <? years)%nat then Qred (currentSIP * (1 + stepUpPercent / 100))
        else currentSIP in
      stepup_fv_loop k (S year) years monthlyReturn stepUpPercent currentSIP' totalAmount'
  end.

Definition calculateStepUpFutureValue (initialSIP : Q) (years : nat)
  (annualReturn stepUpPercent : Q) : Q :=
  stepup_fv_loop years 1 years (annualReturn / 100 / 12) stepUpPercent initialSIP 0.

(** [calculateStepUpSIP]: the same bisection on the step-up value. *)
Definition calculateStepUpSIP (targetAmount : Q) (years : nat)
  (annualReturn stepUpPercent : Q) : Q :=
  bisect (fun s => calculateStepUpFutureValue s years annualReturn stepUpPercent)
         targetAmount maxIterations 100 (targetAmount / 12).

Fixpoint stepup_invest_loop (fuel : nat) (year years : nat) (stepUpPercent : Q)
  (currentSIP totalInvestment : Q) : Q :=
  match fuel with
  | O => totalInvestment
  | S k =>
      let totalInvestment' := totalInvestment + currentSIP * 12 in
      let currentSIP' :=
        if (year <? years)%nat then currentSIP * (1 + stepUpPercent / 100) else currentSIP in
      stepup_invest_loop k (S year) years stepUpPercent currentSIP' totalInvestment'
  end.

Definition calculateStepUpTotalInvestment (initialSIP : Q) (years : nat)
  (stepUpPercent : Q) : Q :=
  stepup_invest_loop years 1 years stepUpPercent initialSIP 0.

(** The object returned by [calculateRequiredSIP] (the echoed inputs
    apart). *)
Record GoalResult := mkGoalResult {
  goal_success : bool;
  requiredSIP : Q;
  targetAmount : Q;
  inflationAdjustedTarget : Q;
  achievedAmount : Q;
  totalInvestment : Q;
  wealthGain : Q;
  realValue : Q
}.

(** [calculateRequiredSIP(targetAmount, years, annualReturn,
    inflationRate, stepUpPercent)]. *)
Definition calculateRequiredSIP (target : Q) (years : nat)
  (annualReturn inflationRate stepUpPercent : Q) : GoalResult :=
  let inflationAdjustedTarget :=
    if Qltb 0 inflationRate then target * Qpow (1 + inflationRate / 100) years
    else target in
  let sip :=
    if Qltb 0 stepUpPercent
    then calculateStepUpSIP inflationAdjustedTarget years annualReturn stepUpPercent
    else newtonRaphsonMethod inflationAdjustedTarget years annualReturn in
  let achieved :=
    if Qltb 0 stepUpPercent
    then calculateStepUpFutureValue sip years annualReturn stepUpPercent
    else calculateFutureValue sip years annualReturn in
  let invested :=
    if Qltb 0 stepUpPercent
    then calculateStepUpTotalInvestment sip years stepUpPercent
    else sip * inject_Z (Z.of_nat years) * 12 in
  let real :=
    if Qltb 0 inflationRate then achieved / Qpow (1 + inflationRate / 100) years
    else achieved in
  mkGoalResult true (js_ceil (sip / 100) * 100) target inflationAdjustedTarget
               achieved invested (achieved - invested) real.

End GoalSeeker.

(** ** The withdrawal planner (src/js/core/SIPCalculator.js) *)

Module Withdrawal.

(** A sampled row of [this.schedule]. *)
Record WithdrawalRow := mkWithdrawalRow {
  wr_month : Z;
  wr_year : Z;
  wr_balance : Q;
  wr_withdrawal : Q;
  wr_totalWithdrawn : Q
}.

(** The [for (let month = 1; month <= months; month++)] loop of
    [WithdrawalCalculator.calculate]; [fuel] is the number of months
    left.  Returns [(balance, totalWithdrawn, depletedAt, schedule)]. *)
Fixpoint withdraw_loop (fuel : nat) (month : Z) (inflationAdjusted : bool)
  (inflationRate monthlyReturn : Q) (balance totalWithdrawn currentWithdrawal : Q)
  (rows : list WithdrawalRow) : Q * Q * option Z * list WithdrawalRow :=
  match fuel with
  | O => (balance, totalWithdrawn, None, rows)
  | S k =>
      let year := Loan.yearOfLoan month in
      let w :=
        if inflationAdjusted && (1 <? month)%Z && (Z.rem (month - 1) 12 =? 0)%Z
        then Qred (currentWithdrawal * (1 + inflationRate / 100))
        else currentWithdrawal in
      if Qltb balance w then (balance, totalWithdrawn, Some month, rows)
      else
        let b1 := Qred (balance - w) in
        let totalWithdrawn' := Qred (totalWithdrawn + w) in
        let b2 := if Qltb 0 b1 then Qred (b1 * (1 + monthlyReturn)) else b1 in
        let rows' :=
          if (Z.rem month 6 =? 0)%Z || (month =? 1)%Z || Qle_bool b2 0
          then rows ++ [mkWithdrawalRow month year (js_max b2 0) w totalWithdrawn']
          else rows in
        if Qle_bool b2 0 then (b2, totalWithdrawn', Some month, rows')
        else withdraw_loop k (month + 1) inflationAdjusted inflationRate monthlyReturn
                           b2 totalWithdrawn' w rows'
  end.

Record WithdrawalResult := mkWithdrawalResult {
  w_success : bool;
  initialCorpus : Q;
  monthlyWithdrawal : Q;
  totalWithdrawn : Q;
  remainingCorpus : Q;
  depletedAt : option Z;
  depletedInYears : option Q;
  lastsThroughPlan : bool;
  w_schedule : list WithdrawalRow
}.

(** [calculate(initialCorpus, monthlyWithdrawal, years, annualReturn,
    inflationRate, inflationAdjusted)]; a depletion month is never 0, so
    [depletedAt ? depletedAt / 12 : null] is [option_map]. *)
Definition calculate (initialCorpus monthlyWithdrawal : Q) (years : nat)
  (annualReturn inflationRate : Q) (inflationAdjusted : bool) : WithdrawalResult :=
  let months := (years * 12)%nat in
  let monthlyReturn := annualReturn / 100 / 12 in
  let '(balance, withdrawn, depleted, rows) :=
    withdraw_loop months 1 inflationAdjusted inflationRate monthlyReturn
                  initialCorpus 0 monthlyWithdrawal [] in
  mkWithdrawalResult true initialCorpus monthlyWithdrawal withdrawn (js_max balance 0)
    depleted (option_map (fun m => inject_Z m / 12) depleted)
    (match depleted with None => true | Some _ => false end) rows.

End Withdrawal.

(** ** The v2 EMI calculator (src/v2/js/core/EMICalculator.js) *)

Module EMIv2.

(** [_emi(principal, annualRate, months)]. *)
Definition _emi (principal annualRate : Q) (months : Z) : Q :=
  if Qeq_bool annualRate 0 then principal / inject_Z months
  else
    let r := annualRate / 100 / 12 in
    let factor := Qpow (1 + r) (Z.to_nat months) in
    principal * r * factor / (factor - 1).

(** The errors thrown by [calculateTenure], one per message. *)
Inductive TenureError :=
| PrincipalNotPositive   (* 'Principal must be positive' *)
| EmiNotPositive         (* 'EMI must be positive' *)
| RateNegative           (* 'Rate cannot be negative' *)
| EmiTooLow.             (* 'EMI is too low to repay the loan at this rate' *)

(** [Math.ceil(-Math.log(a) / Math.log(b))] for [0 < a < 1 < b]: the
    least [N] with [b^N >= 1 / a], searched up to the Bernoulli bound
    [(1/a - 1) / (b - 1) + 1]. *)
Definition ceil_neg_log_ratio (a b : Q) : Z :=
  match Loan.first_months b (/ a) 0 (S (Z.to_nat (Qceiling ((/ a - 1) / (b - 1))))) with
  | Some n => n
  | None => 0%Z
  end.

(** [calculateTenure(principal, emi, annualRate)]: its [tenureMonths]
    (the totals, rounded by [roundCurrency], are left out). *)
Definition calculateTenure (principal emi annualRate : Q) : TenureError + Z :=
  if Qle_bool principal 0 then inl PrincipalNotPositive
  else if Qle_bool emi 0 then inl EmiNotPositive
  else if Qltb annualRate 0 then inl RateNegative
  else if Qeq_bool annualRate 0 then inr (Qceiling (principal / emi))
  else
    let r := annualRate / 100 / 12 in
    if Qle_bool emi (principal * r) then inl EmiTooLow
    else inr (ceil_neg_log_ratio (1 - principal * r / emi) (1 + r)).

End EMIv2.

(** ** Configurations of the SIP engine *)

Module SIPExamples.
Import SIP.

(** A plan of [P] a month for [years] years, with no step-up and the
    single scenario [name] returning [R] % a year from year 1 on. *)
Definition flat_config (P : Q) (years : nat) (R inflation : Q) (name : string)
  : SIPConfiguration :=
  mkSIPConfig P years [] [(name, addPeriod (mkScenario name []) 1 None R)] inflation.

End SIPExamples.

(** ** Reference notions for the withdrawal planner *)

Module WithdrawalSpec.

(** The order on depletion months in which a plan that never depletes
    ([None]) comes last. *)
Definition depletion_leb (a b : option Z) : bool :=
  match a, b with
  | _, None => true
  | None, Some _ => false
  | Some x, Some y => (x <=? y)%Z
  end.

(** The depletion month component of the result of [withdraw_loop]. *)
Definition loop_depletedAt (r : Q * Q * option Z * list Withdrawal.WithdrawalRow) : option Z :=
  snd (fst r).

End WithdrawalSpec.

(** ** Scenario comparison (src/js/core/DataModels.js) *)

Module Comparison.

(** [class LoanScenario]: [id] is the generated UUID, [results] is
    [null] until a calculation is stored ([createdAt] is left out). *)
Record LoanScenario := mkLoanScenario {
  ls_id : string;
  ls_name : string;
  ls_results : option Loan.LoanResult
}.

(** [class ScenarioComparison]; [baseScenarioId = None] is [null]. *)
Record ScenarioComparison := mkComparison {
  scenarios : list LoanScenario;
  baseScenarioId : option string
}.

Definition emptyComparison : ScenarioComparison := mkComparison [] None.

(** [addScenario(scenario)]. *)
Definition addScenario (c : ScenarioComparison) (s : LoanScenario) : ScenarioComparison :=
  let l := (scenarios c ++ [s])%list in
  mkComparison l (if (List.length l =? 1)%nat then Some (ls_id s) else baseScenarioId c).

(** [this.baseScenarioId === scenarioId]. *)
Definition is_base (c : ScenarioComparison) (scenarioId : string) : bool :=
  match baseScenarioId c with Some b => String.eqb b scenarioId | None => false end.

(** [removeScenario(scenarioId)]. *)
Definition removeScenario (c : ScenarioComparison) (scenarioId : string) : ScenarioComparison :=
  let l := filter (fun s => negb (String.eqb (ls_id s) scenarioId)) (scenarios c) in
  mkComparison l
    (match l with
     | s0 :: _ => if is_base c scenarioId then Some (ls_id s0) else baseScenarioId c
     | [] => baseScenarioId c
     end).

(** [getScenarioById(scenarioId)]; [None] is [undefined]. *)
Definition getScenarioById (c : ScenarioComparison) (scenarioId : string) : option LoanScenario :=
  find (fun s => String.eqb (ls_id s) scenarioId) (scenarios c).

(** The calls a caller makes on a comparison. *)
Inductive ComparisonOp :=
| OpAdd (s : LoanScenario)
| OpRemove (scenarioId : string).

Definition apply_op (c : ScenarioComparison) (o : ComparisonOp) : ScenarioComparison :=
  match o with
  | OpAdd s => addScenario c s
  | OpRemove i => removeScenario c i
  end.

(** The object built for each scenario by [getComparativeMetrics]. *)
Record ComparativeMetric := mkMetric {
  cm_id : string;
  cm_name : string;
  cm_totalInterest : jsnum;
  cm_totalPayment : jsnum;
  cm_months : Z;
  cm_interestSavedVsBase : jsnum;
  cm_tenureReducedVsBase : Z;
  cm_isBase : bool
}.

(** [.filter(m => m !== null)]. *)
Fixpoint drop_nulls {A : Type} (l : list (option A)) : list A :=
  match l with
  | [] => []
  | Some x :: r => x :: drop_nulls r
  | None :: r => drop_nulls r
  end.

(** [getComparativeMetrics()]; [getScenarioById(null)] finds nothing,
    the ids being strings. *)
Definition getComparativeMetrics (c : ScenarioComparison) : list ComparativeMetric :=
  let baseScenario :=
    match baseScenarioId c with Some b => getScenarioById c b | None => None end in
  match baseScenario with
  | Some base =>
      match ls_results base with
      | Some br =>
          drop_nulls
            (map (fun s =>
                    match ls_results s with
                    | None => None
                    | Some r =>
                        Some (mkMetric (ls_id s) (ls_name s) (Loan.totalInterest r)
                                (Loan.totalPayment r) (Loan.months r)
                                (jsub (Loan.totalInterest br) (Loan.totalInterest r))
                                (Loan.months br - Loan.months r)%Z
                                (is_base c (ls_id s)))
                    end)
                 (scenarios c))
      | None => []
      end
  | None => []
  end.

(** A comparison of a base loan (12 months, interest 5000) and a
    prepayment scenario (10 months, interest 4000). *)
Definition sample_comparison : ScenarioComparison :=
  addScenario
    (addScenario emptyComparison
       (mkLoanScenario "base" "Base"
          (Some (Loan.mkResult 12 (Some 5000) (Some 100000) (Some 105000) (Some 0) 0
                   8800 (Some 8800) 12 5000 [] 8))))
    (mkLoanScenario "prepay" "Prepayment"
       (Some (Loan.mkResult 10 (Some 4000) (Some 100000) (Some 104000) (Some 1000) 2
                8800 (Some 8800) 12 5000 [] 8))).

End Comparison.

(** ** Portfolio allocation (src/js/core/DataModels.js) *)

Module Portfolio.

(** [class AssetAllocation]. *)
Record AssetAllocation := mkAllocation {
  aa_name : string;
  aa_monthlySIP : Q;
  aa_currentValue : Q;
  aa_targetPercent : Q
}.

(** [this.allocations.reduce((sum, a) => sum + a.currentValue, 0)]. *)
Definition totalValue (allocations : list AssetAllocation) : Q :=
  fold_left (fun sum a => sum + aa_currentValue a) allocations 0.

Record CurrentAllocation := mkCurrent {
  ca_name : string;
  ca_currentPercent : Q;
  ca_targetPercent : Q;
  ca_currentValue : Q
}.

(** [calculateCurrentAllocation()]. *)
Definition calculateCurrentAllocation (allocations : list AssetAllocation)
  : list CurrentAllocation :=
  let total := totalValue allocations in
  map (fun a => mkCurrent (aa_name a)
                          (if Qltb 0 total then aa_currentValue a / total * 100 else 0)
                          (aa_targetPercent a) (aa_currentValue a))
      allocations.

Record Rebalance := mkRebalance {
  rb_name : string;
  rb_currentValue : Q;
  rb_targetValue : Q;
  rb_rebalanceAmount : Q;
  rb_action : string
}.

(** [calculateRebalancing()] ([currentPercent] is computed and unused). *)
Definition calculateRebalancing (allocations : list AssetAllocation) : list Rebalance :=
  let total := totalValue allocations in
  map (fun a =>
         let targetValue := aa_targetPercent a / 100 * total in
         let rebalanceAmount := targetValue - aa_currentValue a in
         mkRebalance (aa_name a) (aa_currentValue a) targetValue rebalanceAmount
           (if Qltb 0 rebalanceAmount then "BUY"%string
            else if Qltb rebalanceAmount 0 then "SELL"%string else "HOLD"%string))
      allocations.

End Portfolio.

(** ** Goal probability (src/js/core/GoalSeeker.js) *)

Module GoalProbability.
Import GoalSeeker.

Record Outcome := mkOutcome {
  o_returnRate : Q;
  o_achievedAmount : Q;
  o_success : bool;
  o_shortfall : Q
}.

Record ProbabilityResult := mkProbability {
  probability : Q;
  outcomes : list (string * Outcome);
  recommendation : string
}.

(** The [scenarios] object, in its insertion order. *)
Definition goal_scenarios (expectedReturn volatility : Q) : list (string * Q) :=
  [("worst"%string, expectedReturn - volatility);
   ("pessimistic"%string, expectedReturn - volatility / 2);
   ("realistic"%string, expectedReturn);
   ("optimistic"%string, expectedReturn + volatility / 2);
   ("best"%string, expectedReturn + volatility)].

(** [calculateGoalProbability(monthlySIP, targetAmount, years,
    expectedReturn, volatility)]. *)
Definition calculateGoalProbability (monthlySIP targetAmount : Q) (years : nat)
  (expectedReturn volatility : Q) : ProbabilityResult :=
  let sc := goal_scenarios expectedReturn volatility in
  let outs :=
    map (fun '(name, returnRate) =>
           let fv := calculateFutureValue monthlySIP years returnRate in
           (name, mkOutcome returnRate fv (Qle_bool targetAmount fv)
                            (js_max 0 (targetAmount - fv))))
        sc in
  let successCount := List.length (filter (fun o => o_success (snd o)) outs) in
  mkProbability (inject_Z (Z.of_nat successCount) / inject_Z (Z.of_nat (List.length sc)) * 100)
    outs
    (if (3 <=? successCount)%nat then "Likely to achieve goal"%string
     else if (2 <=? successCount)%nat then "Moderate chance of achieving goal"%string
     else "Consider increasing SIP or duration"%string).

End GoalProbability.

(** ** Required corpus and the retirement planner (src/js/core/SIPCalculator.js) *)

Module Retirement.

(** The [while (iterations < maxIterations && high - low > 1000)] loop
    of [calculateRequiredCorpus]; [fuel] is [maxIterations - iterations]. *)
Fixpoint corpus_search (fuel : nat) (monthlyWithdrawal : Q) (years : nat)
  (annualReturn inflationRate : Q) (inflationAdjusted : bool) (low high : Q) : Q :=
  match fuel with
  | O => high
  | S k =>
      if Qltb 1000 (high - low) then
        let mid := Qred ((low + high) / 2) in
        match Withdrawal.depletedAt
                (Withdrawal.calculate mid monthlyWithdrawal years annualReturn inflationRate
                                      inflationAdjusted) with
        | None => corpus_search k monthlyWithdrawal years annualReturn inflationRate
                                inflationAdjusted low mid
        | Some _ => corpus_search k monthlyWithdrawal years annualReturn inflationRate
                                  inflationAdjusted mid high
        end
      else high
  end.

(** [calculateRequiredCorpus(monthlyWithdrawal, years, annualReturn,
    inflationRate, inflationAdjusted)]. *)
Definition calculateRequiredCorpus (monthlyWithdrawal : Q) (years : nat)
  (annualReturn inflationRate : Q) (inflationAdjusted : bool) : Q :=
  let low := monthlyWithdrawal * inject_Z (Z.of_nat years) * 12 in
  let high := low * 3 in
  js_ceil (corpus_search 100 monthlyWithdrawal years annualReturn inflationRate
                         inflationAdjusted low high / 100000) * 100000.

(** The accumulation parameters read by [buildSIPConfig]; a missing
    [inflationRate] or [stepUpPercent] is 0 ([params.inflationRate || 0]
    is the rate itself on a number). *)
Record AccumulationParams := mkAccumulation {
  ap_monthlySIP : Q;
  ap_years : nat;
  ap_inflationRate : Q;
  ap_returnRate : Q;
  ap_stepUpPercent : Q
}.

(** [buildSIPConfig(params)]. *)
Definition buildSIPConfig (params : AccumulationParams) : SIP.SIPConfiguration :=
  SIP.mkSIPConfig (ap_monthlySIP params) (ap_years params)
    (if Qltb 0 (ap_stepUpPercent params)
     then [SIP.mkStepUp 1 None (ap_stepUpPercent params)] else [])
    [("realistic"%string,
      SIP.addPeriod (SIP.mkScenario "realistic" []) 1 None (ap_returnRate params))]
    (ap_inflationRate params).

Record WithdrawalParams := mkWithdrawalParams {
  wp_monthlyWithdrawal : Q;
  wp_years : nat;
  wp_returnDuringWithdrawal : Q;
  wp_inflationRate : Q;
  wp_inflationAdjusted : bool
}.

Record FullPlan := mkFullPlan {
  accumulation : SIP.SIPResult;
  withdrawal : Withdrawal.WithdrawalResult;
  totalDuration : Q;
  fp_success : bool
}.

(** [calculateFullPlan(accumulationParams, withdrawalParams)];
    [depletedInYears || withdrawalParams.years] falls back on [null]
    and on 0. *)
Definition calculateFullPlan (acc : AccumulationParams) (wp : WithdrawalParams)
  : SIP.SIPError + FullPlan :=
  match SIP.calculate (buildSIPConfig acc) "realistic" with
  | inl e => inl e
  | inr a =>
      let w := Withdrawal.calculate (SIP.finalValue a) (wp_monthlyWithdrawal wp) (wp_years wp)
                 (wp_returnDuringWithdrawal wp) (wp_inflationRate wp)
                 (wp_inflationAdjusted wp) in
      let wyears := inject_Z (Z.of_nat (wp_years wp)) in
      inr (mkFullPlan a w
             (inject_Z (Z.of_nat (ap_years acc)) +
              match Withdrawal.depletedInYears w with
              | Some y => if Qeq_bool y 0 then wyears else y
              | None => wyears
              end)
             (Withdrawal.lastsThroughPlan w))
  end.

(** The parameters read by [calculateSimpleSIP]. *)
Record SimpleSIPParams := mkSimpleSIP {
  sp_sipAmount : Q;
  sp_sipYears : nat;
  sp_inflationRate : Q;
  sp_sipReturn : Q;
  sp_sipStepUp : Q
}.

(** [calculateSimpleSIP(params)]. *)
Definition calculateSimpleSIP (params : SimpleSIPParams) : SIP.SIPError + SIP.SIPResult :=
  SIP.calculate
    (SIP.mkSIPConfig (sp_sipAmount params) (sp_sipYears params)
       (if Qltb 0 (sp_sipStepUp params)
        then [SIP.mkStepUp 1 None (sp_sipStepUp params)] else [])
       [("realistic"%string,
         SIP.addPeriod (SIP.mkScenario "realistic" []) 1 None (sp_sipReturn params))]
       (sp_inflationRate params))
    "realistic".

End Retirement.

(** ** Proofs about the loan data model *)

Module LoanRate.
Import Loan LoanSpec.

Lemma find_app_first {A} (f : A -> bool) (l1 l2 : list A) :
  find f (l1 ++ l2) = match find f l1 with Some x => Some x | None => find f l2 end.
Proof.
  induction l1 as [|x xs IH]; [reflexivity|]; simpl.
  destruct (f x); [reflexivity|exact IH].
Qed.

Lemma fold_overwrite_last (sched : list InterestRatePeriod) (month : Z) (acc : option Q) :
  fold_left (fun acc p => if isActiveForMonth p month then Some (rate p) else acc)
            sched acc
  = match last_active_rate sched month with Some r => Some r | None => acc end.
Proof.
  revert acc; induction sched as [|p ps IH]; intro acc; [reflexivity|].
  simpl fold_left; rewrite IH; unfold last_active_rate; simpl rev.
  rewrite find_app_first; simpl find.
  destruct (find (fun q => isActiveForMonth q month) (rev ps)); [reflexivity|].
  destruct (isActiveForMonth p month); reflexivity.
Qed.

(** C1: [getInterestRateForMonth] returns the rate of the last entry of
    the (sorted) schedule whose range contains the month, else the first
    entry's rate, else 0; for [1,null)@5 then [6,12]@8 added in that
    order the rates at months 7, 1 and 13 are 8, 5 and 5. *)
Theorem rate_last_match_wins :
  (forall (sched : list InterestRatePeriod) (m : Z),
     getInterestRateForMonth sched m =
     match last_active_rate sched m with
     | Some r => r
     | None => match sched with [] => 0 | p :: _ => rate p end
     end) /\
  (let c := addRatePeriod (addRatePeriod emptyConfig 1 5 None) 6 8 (Some 12%Z) in
   getInterestRateForMonth (interestRateSchedule c) 7 = 8 /\
   getInterestRateForMonth (interestRateSchedule c) 1 = 5 /\
   getInterestRateForMonth (interestRateSchedule c) 13 = 5).
Proof.
  split.
  - intros sched m; unfold getInterestRateForMonth; rewrite fold_overwrite_last.
    destruct (last_active_rate sched m); reflexivity.
  - vm_compute; repeat split.
Qed.

End LoanRate.

(** ** The prepayment cap of the ledger *)

Module LoanLedger.
Import Loan LoanSpec.

(** C2 (the cap fails): with [prepay_emi] the EMI recomputed in month 2
    is [NaN] (the logarithm of a negative ratio in
    [estimateRemainingMonths] passes its sanity checks), so in month 3
    the scheduled principal is [NaN] and the capped prepayment
    [Math.min(amount, balance - principal)] recorded in the row is
    [NaN]: that row satisfies no bound [0 <= prepayment <= b - p]. *)
Theorem prepayment_cap_nan :
  match calculate LoanExamples.prepay_emi with
  | inr res =>
      List.map row_month (amortizationSchedule res) = [1; 2; 3]%Z /\
      List.map row_prepayment (amortizationSchedule res) = [Some 0; Some 1000; None] /\
      option_map row_emi (nth_error (amortizationSchedule res) 1) = Some None /\
      match nth_error (amortizationSchedule res) 2 with
      | Some r => forall b sp, row_prepayment_capped b sp r = false
      | None => False
      end
  | inl _ => False
  end.
Proof.
  vm_compute.
  split; [reflexivity|]; split; [reflexivity|]; split; [reflexivity|].
  intros; reflexivity.
Qed.

End LoanLedger.

(** ** Baseline monotonicity under [REDUCE_TENURE] *)

Module LoanMonotone.
Import Loan LoanSpec.

(** Comparison and normalisation helpers. *)

Lemma Qle_bool_false (a b : Q) : Qle_bool a b = false -> b < a.
Proof.
  intro H; apply Qnot_le_lt; intro H'; apply Qle_bool_iff in H'; congruence.
Qed.

Ltac gen_qred :=
  repeat match goal with
  | |- context [Qred ?x] =>
      let q := fresh "q" in let Hq := fresh "Hq" in
      pose proof (Qred_correct x) as Hq; set (q := Qred x) in *; clearbody q
  | H : context [Qred ?x] |- _ =>
      let q := fresh "q" in let Hq := fresh "Hq" in
      pose proof (Qred_correct x) as Hq; set (q := Qred x) in *; clearbody q
  end.

Ltac split_bools :=
  repeat match goal with
  | H : Qle_bool _ _ = true |- _ => apply Qle_bool_iff in H
  | H : Qle_bool _ _ = false |- _ => apply Qle_bool_false in H
  | |- context [Qle_bool ?a ?b] =>
      let E := fresh "E" in destruct (Qle_bool a b) eqn:E
  | H : context [Qle_bool ?a ?b] |- _ =>
      let E := fresh "E" in destruct (Qle_bool a b) eqn:E
  end.

Ltac qsolve := unfold tenure_next, sched_principal, js_min, Qltb in *; cbv zeta in *; gen_qred; split_bools; cbn [negb] in *; lra.

Lemma base_mono (e i1 i2 b1 b2 : Q) :
  b1 <= b2 -> i1 <= i2 ->
  Qred (b1 - sched_principal e i1 b1) <= Qred (b2 - sched_principal e i2 b2).
Proof. intros; qsolve. Qed.

Lemma base_nonneg (e i b : Q) : 0 <= b -> 0 <= Qred (b - sched_principal e i b).
Proof. intros; qsolve. Qed.

Lemma tenure_le_base (e i b a : Q) :
  0 <= b -> 0 <= tenure_next e i b a /\ tenure_next e i b a <= Qred (b - sched_principal e i b).
Proof. intros; split; qsolve. Qed.

Lemma scan_not_emi {A} (isActive : A -> bool) amount label strategy (l : list A) acc :
  forallb (fun p => negb (is_reduce_emi (strategy p))) l = true ->
  is_reduce_emi (snd acc) = false ->
  is_reduce_emi (snd (scan isActive amount label strategy l acc)) = false.
Proof.
  unfold scan; revert acc; induction l as [|p ps IH]; intros [[a t] st] Hl Hst; [exact Hst|].
  simpl in Hl; apply andb_prop in Hl as [Hp Hps].
  simpl fold_left; destruct (isActive p); apply IH; auto.
  unfold override; destruct (strategy p); [apply negb_true_iff in Hp; exact Hp | exact Hst].
Qed.

Lemma strategy_not_emi (c : LoanConfiguration) (m : Z) :
  tenure_only c = true ->
  match pi_strategy (getPrepaymentForMonth c m) with
  | Some x => x | None => defaultStrategy c end = REDUCE_TENURE.
Proof.
  unfold tenure_only; intro H.
  apply andb_prop in H as [H Hop]; apply andb_prop in H as [H Hyp];
  apply andb_prop in H as [Hd Hmp].
  unfold getPrepaymentForMonth.
  set (s1 := scan _ _ _ _ (monthly _) _).
  set (s2 := scan _ _ _ _ (yearly _) s1).
  assert (H1 : is_reduce_emi (snd s1) = false) by (apply scan_not_emi; auto).
  assert (H2 : is_reduce_emi (snd s2) = false) by (apply scan_not_emi; auto).
  assert (Hs : is_reduce_emi (snd (scan (fun p => op_isActiveForMonth p m) op_amount
                 "lump-sum" op_strategy (oneTime (prepaymentStrategy c)) s2)) = false)
    by (apply scan_not_emi; auto).
  destruct (scan _ _ _ _ (oneTime _) _) as [[a t] st]; simpl in Hs |- *.
  destruct st as [[|]|]; try discriminate; [reflexivity|].
  destruct (defaultStrategy c); [reflexivity|discriminate].
Qed.

Lemma step_tenure (c : LoanConfiguration) (s : LoopState) (b e : Q) :
  tenure_only c = true -> st_emi s = Some e ->
  st_month (step c s b) = (st_month s + 1)%Z /\
  st_emi (step c s b) = Some e /\
  st_balance (step c s b) =
    Some (tenure_next e (Qred (b * monthly_rate c (st_month s + 1))) b
            (pi_amount (getPrepaymentForMonth c (st_month s + 1)))) /\
  st_totalInterest (step c s b) =
    jadd (st_totalInterest s) (Some (Qred (b * monthly_rate c (st_month s + 1)))).
Proof.
  intros Ht He. set (m := (st_month s + 1)%Z). set (i := Qred (b * monthly_rate c m)).
  pose proof (strategy_not_emi c m Ht) as Hs.
  unfold step, tenure_next, sched_principal; fold m; fold (monthly_rate c m); fold i.
  rewrite He.
  destruct (getPrepaymentForMonth c m) as [amt ty st]; cbn [pi_strategy pi_amount] in Hs |- *.
  destruct st as [x|]; [rewrite Hs| rewrite Hs].
  all: cbv zeta; cbn [jmin jsub jadd jlt].
  all: repeat (match goal with |- context [Qltb ?a ?b] => destruct (Qltb a b) end; cbn [jmin jsub jadd jlt]).
  all: repeat split.
Qed.

Lemma rate_nonneg (c : LoanConfiguration) (m : Z) :
  rates_nonneg c = true -> 0 <= getInterestRateForMonth (interestRateSchedule c) m.
Proof.
  unfold rates_nonneg, getInterestRateForMonth; intro H.
  assert (Hf : forall l acc,
    forallb (fun p => Qle_bool 0 (rate p)) l = true ->
    match acc with Some r => 0 <= r | None => True end ->
    match fold_left (fun acc p => if isActiveForMonth p m then Some (rate p) else acc) l acc
    with Some r => 0 <= r | None => True end).
  { induction l as [|p ps IH]; intros acc Hl Ha; [exact Ha|].
    simpl in Hl |- *; apply andb_prop in Hl as [Hp Hps].
    apply IH; [exact Hps|].
    destruct (isActiveForMonth p m); [apply Qle_bool_iff; exact Hp | exact Ha]. }
  specialize (Hf _ None H I).
  destruct (fold_left _ _ _); [exact Hf|].
  destruct (interestRateSchedule c) as [|p ps]; [apply Qle_refl|].
  simpl in H; apply andb_prop in H as [Hp _]; apply Qle_bool_iff; exact Hp.
Qed.

Lemma monthly_rate_nonneg (c : LoanConfiguration) (m : Z) :
  rates_nonneg c = true -> 0 <= monthly_rate c m.
Proof.
  intro H; unfold monthly_rate, Qdiv.
  repeat apply Qmult_le_0_compat; [apply rate_nonneg; exact H | discriminate | discriminate].
Qed.

Lemma interest_mono (b1 b2 mr : Q) : 0 <= mr -> b1 <= b2 -> Qred (b1 * mr) <= Qred (b2 * mr).
Proof. intros; rewrite !Qred_correct; apply Qmult_le_compat_r; assumption. Qed.

Lemma interest_nonneg (b mr : Q) : 0 <= mr -> 0 <= b -> 0 <= Qred (b * mr).
Proof. intros; rewrite Qred_correct; apply Qmult_le_0_compat; assumption. Qed.

Lemma original_loop_S (c : LoanConfiguration) (e : Q) (k : nat) (m : Z) (b t : Q) :
  original_loop c e (S k) m b t =
  if Qltb (1 # 100) b then
    let i := Qred (b * monthly_rate c (m + 1)) in
    let b' := Qred (b - sched_principal e i b) in
    if Qle_bool b' (1 # 100) then ((m + 1)%Z, b', Qred (t + i))
    else original_loop c e k (m + 1) b' (Qred (t + i))
  else (m, b, t).
Proof. reflexivity. Qed.

Lemma orig_month_ge (c : LoanConfiguration) (e : Q) (f : nat) (m : Z) (b t : Q) :
  (m <= fst (fst (original_loop c e f m b t)))%Z.
Proof.
  revert m b t; induction f as [|f IH]; intros m b t; [simpl; lia|].
  rewrite original_loop_S; cbv zeta.
  destruct (Qltb _ b); [|simpl; lia].
  destruct (Qle_bool _ _); [simpl; lia|].
  specialize (IH (m + 1)%Z (Qred (b - sched_principal e (Qred (b * monthly_rate c (m + 1))) b))
                 (Qred (t + Qred (b * monthly_rate c (m + 1))))); lia.
Qed.

Lemma orig_ti_ge (c : LoanConfiguration) (e : Q) (f : nat) (m : Z) (b t : Q) :
  rates_nonneg c = true -> 0 <= b -> t <= snd (original_loop c e f m b t).
Proof.
  intro Hr; revert m b t; induction f as [|f IH]; intros m b t Hb; [apply Qle_refl|].
  rewrite original_loop_S; cbv zeta.
  pose proof (interest_nonneg b _ (monthly_rate_nonneg c (m + 1) Hr) Hb) as Hi.
  assert (Ht : t <= Qred (t + Qred (b * monthly_rate c (m + 1)))) by (rewrite Qred_correct; lra).
  destruct (Qltb _ b); [|apply Qle_refl].
  destruct (Qle_bool _ _); [exact Ht|].
  eapply Qle_trans; [exact Ht|]. apply IH, base_nonneg, Hb.
Qed.

Lemma orig_final (c : LoanConfiguration) (e : Q) (f : nat) (m : Z) (b t : Q) :
  (fst (fst (original_loop c e f m b t)) < m + Z.of_nat f)%Z ->
  snd (fst (original_loop c e f m b t)) <= 1 # 100.
Proof.
  revert m b t; induction f as [|f IH]; intros m b t H; [simpl in H; lia|].
  rewrite original_loop_S in H |- *; cbv zeta in H |- *.
  destruct (Qltb (1 # 100) b) eqn:E.
  - destruct (Qle_bool _ (1 # 100)) eqn:E'; [apply Qle_bool_iff; exact E'|].
    apply IH; lia.
  - unfold Qltb in E; apply negb_false_iff, Qle_bool_iff in E; exact E.
Qed.

Lemma Qltb_true (a b : Q) : Qltb a b = true -> a < b.
Proof. unfold Qltb; intro H; apply negb_true_iff, Qle_bool_false in H; exact H. Qed.

Lemma Qltb_false (a b : Q) : Qltb a b = false -> b <= a.
Proof. unfold Qltb; intro H; apply negb_false_iff, Qle_bool_iff in H; exact H. Qed.

Lemma main_le_orig (c : LoanConfiguration) (e : Q) :
  tenure_only c = true -> rates_nonneg c = true ->
  forall fb fm s bm tm bb tb,
  (fb <= fm)%nat -> st_balance s = Some bm -> st_emi s = Some e ->
  st_totalInterest s = Some tm ->
  0 <= bm -> bm <= bb -> tm <= tb ->
  snd (fst (original_loop c e fb (st_month s) bb tb)) <= 1 # 100 ->
  (st_month (calc_loop c fm s) <= fst (fst (original_loop c e fb (st_month s) bb tb)))%Z /\
  exists t, st_totalInterest (calc_loop c fm s) = Some t /\
            t <= snd (original_loop c e fb (st_month s) bb tb).
Proof.
  intros Ht Hr.
  induction fb as [|fb IH]; intros fm s bm tm bb tb Hf Hb He Hti Hbm0 Hbb Htt Hfin.
  - simpl in Hfin |- *.
    destruct fm as [|fm]; simpl.
    + split; [lia|exists tm; split; assumption].
    + rewrite Hb. destruct (Qltb (1 # 100) bm) eqn:E.
      * apply Qltb_true in E; lra.
      * split; [lia|exists tm; split; assumption].
  - destruct fm as [|fm]; [lia|].
    rewrite original_loop_S in Hfin |- *; cbv zeta in Hfin |- *.
    destruct (Qltb (1 # 100) bb) eqn:Ebb.
    2: { simpl; rewrite Hb. apply Qltb_false in Ebb.
         destruct (Qltb (1 # 100) bm) eqn:E; [apply Qltb_true in E; lra|].
         split; [lia|exists tm; split; assumption]. }
    pose proof (monthly_rate_nonneg c (st_month s + 1) Hr) as Hmr.
    set (ib := Qred (bb * monthly_rate c (st_month s + 1))) in *.
    set (bb' := Qred (bb - sched_principal e ib bb)) in *.
    set (tb' := Qred (tb + ib)) in *.
    assert (Hib : 0 <= ib) by (apply interest_nonneg; lra).
    assert (Hbb' : 0 <= bb') by (apply base_nonneg; lra).
    assert (Htb : tb <= tb') by (unfold tb'; rewrite Qred_correct; lra).
    assert (Hrest : (st_month s + 1 <=
                     fst (fst (if Qle_bool bb' (1 # 100) then ((st_month s + 1)%Z, bb', tb')
                               else original_loop c e fb (st_month s + 1) bb' tb')))%Z /\
                    tb' <= snd (if Qle_bool bb' (1 # 100) then ((st_month s + 1)%Z, bb', tb')
                                else original_loop c e fb (st_month s + 1) bb' tb')).
    { destruct (Qle_bool bb' (1 # 100)); simpl; [split; [lia|apply Qle_refl]|].
      split; [apply orig_month_ge|apply orig_ti_ge; assumption]. }
    cbn [calc_loop]; rewrite Hb.
    destruct (Qltb (1 # 100) bm) eqn:Ebm.
    2: { destruct Hrest as [H1 H2]; split; [lia|exists tm; split; [assumption|lra]]. }
    destruct (step_tenure c s bm e Ht He) as (Hm1 & He1 & Hb1 & Ht1).
    set (im := Qred (bm * monthly_rate c (st_month s + 1))) in *.
    set (amt := pi_amount (getPrepaymentForMonth c (st_month s + 1))) in *.
    set (bm' := tenure_next e im bm amt) in *.
    assert (Him : im <= ib) by (apply interest_mono; assumption).
    assert (Him0 : 0 <= im) by (apply interest_nonneg; assumption).
    destruct (tenure_le_base e im bm amt Hbm0) as [Hbm'0 Hbm'1]; fold bm' in Hbm'0, Hbm'1.
    pose proof (base_mono e im ib bm bb Hbb Him) as Hmono; fold bb' in Hmono.
    assert (Htm : Qred (tm + im) <= tb') by (unfold tb'; rewrite !Qred_correct; lra).
    rewrite Hb1; cbn [jle].
    destruct (Qle_bool bm' (1 # 100)) eqn:Ebm'.
    + cbn [st_month st_totalInterest]; rewrite Hm1, Ht1, Hti; cbn [jadd].
      destruct Hrest as [H1 H2]; split; [exact H1|].
      exists (Qred (tm + im)); split; [reflexivity|lra].
    + apply Qle_bool_false in Ebm'.
      destruct (Qle_bool bb' (1 # 100)) eqn:Ebb'.
      * apply Qle_bool_iff in Ebb'; lra.
      * rewrite <- Hm1.
        apply (IH fm (step c s bm) bm' (Qred (tm + im)) bb' tb');
          try assumption; try lia; try lra.
        -- rewrite Ht1, Hti; reflexivity.
        -- rewrite Hm1; exact Hfin.
Qed.

(** C3 (amended): when no entry and not the default asks for
    [REDUCE_EMI], every rate is non-negative and the baseline pays off
    within its [2 * tenure] limit, [calculate] ends no later than the
    baseline and pays no more interest:
    [months <= originalMonths] and [totalInterest <= originalTotalInterest]. *)
Theorem baseline_monotone_tenure (c : LoanConfiguration) (res : LoanResult) :
  calculate c = inr res -> tenure_only c = true -> rates_nonneg c = true ->
  (originalMonths res < 2 * baseTenureMonths c)%Z ->
  (months res <= originalMonths res)%Z /\
  exists ti, totalInterest res = Some ti /\ ti <= originalTotalInterest res.
Proof.
  intros Hc Ht Hr.
  unfold calculate in Hc; destruct (validate c) eqn:Ev; [|discriminate].
  injection Hc as <-.
  unfold validate in Ev.
  destruct (Qle_bool (principal c) 0) eqn:Ep; [discriminate|].
  destruct (baseTenureMonths c <=? 0)%Z eqn:En; [discriminate|].
  apply Qle_bool_false in Ep; apply Z.leb_gt in En.
  unfold calculateOriginalLoan.
  pose proof (orig_final c (calculateInitialEMI c) (Z.to_nat (baseTenureMonths c * 2)) 0
                (principal c) 0) as Hfin.
  pose proof (main_le_orig c (calculateInitialEMI c) Ht Hr
                (Z.to_nat (baseTenureMonths c * 2)) (Z.to_nat (baseTenureMonths c * 3))
                (mkState 0 (Some (principal c)) (Some (calculateInitialEMI c)) (Some 0) (Some 0) [])
                (principal c) 0 (principal c) 0) as Hmain.
  cbn [st_month] in Hmain.
  destruct (original_loop c (calculateInitialEMI c) (Z.to_nat (baseTenureMonths c * 2)) 0
              (principal c) 0) as [[M B] T].
  intro HM; cbn [originalMonths ol_months months totalInterest originalTotalInterest ol_totalInterest] in HM |- *.
  cbn [fst snd] in Hfin, Hmain |- *.
  destruct Hmain as [H1 [t [H2 H3]]]; try reflexivity; try lra.
  - apply Z2Nat.inj_le; lia.
  - apply Hfin; rewrite Z2Nat.id; lia.
  - split; [exact H1|exists t; split; assumption].
Qed.

(** The amended C3 on [steady]: 8 months against 12. *)
Lemma baseline_monotone_tenure_witness :
  exists res, calculate LoanExamples.steady = inr res /\
    tenure_only LoanExamples.steady = true /\ rates_nonneg LoanExamples.steady = true /\
    (originalMonths res < 2 * baseTenureMonths LoanExamples.steady)%Z /\
    (months res <= originalMonths res)%Z /\
    exists ti, totalInterest res = Some ti /\ ti <= originalTotalInterest res.
Proof.
  destruct (calculate LoanExamples.steady) as [errs|res] eqn:E.
  - vm_compute in E; discriminate.
  - assert (Hm : (originalMonths res < 2 * baseTenureMonths LoanExamples.steady)%Z).
    { pose proof E as E'; vm_compute in E'; injection E' as <-; vm_compute; reflexivity. }
    exists res; split; [reflexivity|]; split; [reflexivity|]; split; [reflexivity|].
    split; [exact Hm|].
    exact (baseline_monotone_tenure LoanExamples.steady res E eq_refl eq_refl Hm).
Defined.

(** C3 as stated fails: with [prepay_tenure] the baseline stops at its
    24-month limit while [calculate] runs to its 36-month limit, with more
    interest; with [small_emi] ([REDUCE_EMI]) both take 13 months but the
    recomputed EMI pays more interest than the baseline. *)
Lemma baseline_monotone_counterexample :
  match calculate LoanExamples.prepay_tenure with
  | inr res => (originalMonths res < months res)%Z /\
               exists ti, totalInterest res = Some ti /\ originalTotalInterest res < ti
  | inl _ => False
  end /\
  match calculate LoanExamples.small_emi with
  | inr res => months res = originalMonths res /\
               exists ti, totalInterest res = Some ti /\ originalTotalInterest res < ti
  | inl _ => False
  end.
Proof.
  vm_compute.
  split; (split; [reflexivity|]); (eexists; split; [reflexivity|reflexivity]).
Qed.
End LoanMonotone.

(** ** Precedence of strategy overrides *)

Module LoanOverride.
Import Loan LoanSpec.

Lemma scan_strategy {A} (isActive : A -> bool) amount label strategy (l : list A) acc :
  snd (scan isActive amount label strategy l acc) =
  match last_override isActive strategy l with Some x => Some x | None => snd acc end.
Proof.
  unfold scan, last_override; revert acc; induction l as [|p ps IH]; intros [[a t] st];
    [reflexivity|].
  cbn [fold_left rev]; rewrite IH, LoanRate.find_app_first; cbn [find].
  destruct (find _ (rev ps)) as [q|] eqn:E.
  - apply find_some in E as [_ E].
    destruct (strategy q); [reflexivity|rewrite andb_false_r in E; discriminate].
  - destruct (isActive p), (strategy p) eqn:Es; cbn; rewrite ?Es; reflexivity.
Qed.

(** C10: the strategy of a month is the last non-null override among the
    active one-time entries, else among the active yearly entries, else
    among the active monthly entries; it depends on each list alone, not
    on how additions of different kinds were interleaved.  In [mixed]
    (one-time added first) the one-time override wins in month 3, the
    yearly one over the monthly one in month 15, the monthly one alone in
    month 4. *)
Theorem override_precedence :
  (forall (c : LoanConfiguration) (m : Z),
     pi_strategy (getPrepaymentForMonth c m) =
     match last_override (fun p => op_isActiveForMonth p m) op_strategy
                         (oneTime (prepaymentStrategy c)) with
     | Some x => Some x
     | None =>
         match last_override (fun p => yp_isActiveForMonth p m) yp_strategy
                             (yearly (prepaymentStrategy c)) with
         | Some x => Some x
         | None => last_override (fun p => mp_isActiveForMonth p m) mp_strategy
                                 (monthly (prepaymentStrategy c))
         end
     end) /\
  pi_strategy (getPrepaymentForMonth LoanExamples.mixed 3) = Some REDUCE_EMI /\
  pi_strategy (getPrepaymentForMonth LoanExamples.mixed 15) = Some REDUCE_TENURE /\
  pi_strategy (getPrepaymentForMonth LoanExamples.mixed 4) = Some REDUCE_EMI.
Proof.
  split; [|vm_compute; repeat split].
  intros c m; unfold getPrepaymentForMonth.
  set (s1 := scan _ _ _ _ (monthly _) _).
  set (s2 := scan _ _ _ _ (yearly _) s1).
  pose proof (scan_strategy (fun p => op_isActiveForMonth p m) op_amount "lump-sum"
                op_strategy (oneTime (prepaymentStrategy c)) s2) as H3.
  pose proof (scan_strategy (fun p => yp_isActiveForMonth p m) yp_amount "yearly"
                yp_strategy (yearly (prepaymentStrategy c)) s1) as H2.
  pose proof (scan_strategy (fun p => mp_isActiveForMonth p m) mp_amount "monthly"
                mp_strategy (monthly (prepaymentStrategy c)) (0, [], None)) as H1.
  fold s2 in H2; fold s1 in H1.
  destruct (scan _ _ _ _ (oneTime _) s2) as [[a t] st]; cbn [snd] in H3; cbn [pi_strategy].
  rewrite H3, H2, H1.
  destruct (last_override _ _ (oneTime _)); [reflexivity|].
  destruct (last_override _ _ (yearly _)); [reflexivity|].
  destruct (last_override _ _ (monthly _)); reflexivity.
Qed.

End LoanOverride.

(** ** Zero-rate loans *)

Module LoanZeroRate.
Import Loan LoanSpec.

Lemma step_totalInterest (c : LoanConfiguration) (s : LoopState) (b : Q) :
  st_totalInterest (step c s b) =
  jadd (st_totalInterest s) (Some (Qred (b * monthly_rate c (st_month s + 1)))).
Proof.
  unfold step; cbv zeta.
  match goal with |- st_totalInterest (match ?e with _ => _ end) = _ =>
    destruct e as [[? ?] ?] end.
  reflexivity.
Qed.

Lemma rate_zero (c : LoanConfiguration) (m : Z) :
  rates_zero c = true -> getInterestRateForMonth (interestRateSchedule c) m == 0.
Proof.
  unfold rates_zero, getInterestRateForMonth; intro H.
  assert (Hf : forall l acc,
    forallb (fun p => Qeq_bool (rate p) 0) l = true ->
    match acc with Some r => r == 0 | None => True end ->
    match fold_left (fun acc p => if isActiveForMonth p m then Some (rate p) else acc) l acc
    with Some r => r == 0 | None => True end).
  { induction l as [|p ps IH]; intros acc Hl Ha; [exact Ha|].
    simpl in Hl |- *; apply andb_prop in Hl as [Hp Hps].
    apply IH; [exact Hps|].
    destruct (isActiveForMonth p m); [apply Qeq_bool_iff; exact Hp | exact Ha]. }
  specialize (Hf _ None H I).
  destruct (fold_left _ _ _); [exact Hf|].
  destruct (interestRateSchedule c) as [|p ps]; [reflexivity|].
  simpl in H; apply andb_prop in H as [Hp _]; apply Qeq_bool_iff; exact Hp.
Qed.

Lemma interest_zero (c : LoanConfiguration) (m : Z) (b : Q) :
  rates_zero c = true -> Qred (b * monthly_rate c m) == 0.
Proof.
  intro H; rewrite Qred_correct; unfold monthly_rate; rewrite (rate_zero c m H); field.
Qed.

Lemma calc_loop_no_interest (c : LoanConfiguration) (fuel : nat) (s : LoopState) :
  rates_zero c = true ->
  (exists t, st_totalInterest s = Some t /\ t == 0) ->
  exists t, st_totalInterest (calc_loop c fuel s) = Some t /\ t == 0.
Proof.
  intro Hz; revert s; induction fuel as [|k IH]; intros s Hs; [exact Hs|].
  cbn [calc_loop].
  destruct (st_balance s) as [b|]; [|exact Hs].
  destruct (Qltb (1 # 100) b); [|exact Hs].
  assert (Hs' : exists t, st_totalInterest (step c s b) = Some t /\ t == 0).
  { destruct Hs as [t [Ht Ht0]].
    rewrite step_totalInterest, Ht; cbn [jadd].
    eexists; split; [reflexivity|].
    rewrite Qred_correct, Ht0, (interest_zero c _ b Hz); reflexivity. }
  destruct (jle _ _); [exact Hs'|apply IH; exact Hs'].
Qed.

Lemma original_no_interest (c : LoanConfiguration) (e : Q) (fuel : nat) (m : Z) (b t : Q) :
  rates_zero c = true -> t == 0 -> snd (original_loop c e fuel m b t) == 0.
Proof.
  intro Hz; revert m b t; induction fuel as [|k IH]; intros m b t Ht; [exact Ht|].
  rewrite LoanMonotone.original_loop_S; cbv zeta.
  assert (Ht' : Qred (t + Qred (b * monthly_rate c (m + 1))) == 0)
    by (rewrite Qred_correct, Ht, (interest_zero c _ b Hz); reflexivity).
  destruct (Qltb _ b); [|exact Ht].
  destruct (Qle_bool _ _); [exact Ht'|apply IH; exact Ht'].
Qed.

(** C6: at annual rate 0 (and [P > 0], [n > 0]) the EMI of the v1
    engine and of the v2 [_emi] is exactly [P / n]; when every rate of
    the schedule is 0, [calculate] accrues a total interest of 0, and so
    does its baseline. *)
Theorem zero_rate_emi :
  (forall (P rate : Q) (n : Z), 0 < P -> (0 < n)%Z -> rate == 0 ->
     calculateEMI P rate n = P / inject_Z n /\ EMIv2._emi P rate n = P / inject_Z n) /\
  (forall (c : LoanConfiguration) (res : LoanResult),
     rates_zero c = true -> calculate c = inr res ->
     (exists t, totalInterest res = Some t /\ t == 0) /\ originalTotalInterest res == 0).
Proof.
  split.
  - intros P rate n HP Hn Hr.
    assert (E : Qeq_bool rate 0 = true) by (apply Qeq_bool_iff; exact Hr).
    split; [|unfold EMIv2._emi; rewrite E; reflexivity].
    unfold calculateEMI.
    destruct (Qle_bool P 0) eqn:E1; [apply Qle_bool_iff in E1; lra|].
    destruct (n <=? 0)%Z eqn:E2; [apply Z.leb_le in E2; lia|].
    assert (E3 : Qeq_bool (rate / 100 / 12) 0 = true)
      by (apply Qeq_bool_iff; rewrite Hr; reflexivity).
    simpl orb; rewrite E3; reflexivity.
  - intros c res Hz Hc.
    unfold calculate in Hc; destruct (validate c); [|discriminate].
    injection Hc as <-; cbn [totalInterest originalTotalInterest].
    split.
    + apply calc_loop_no_interest; [exact Hz|].
      exists 0; split; reflexivity.
    + unfold calculateOriginalLoan.
      pose proof (original_no_interest c (calculateInitialEMI c)
                    (Z.to_nat (baseTenureMonths c * 2)) 0 (principal c) 0 Hz (Qeq_refl 0)) as H.
      destruct (original_loop _ _ _ _ _ _) as [[m b] t]; exact H.
Qed.

(** C6 at [P = 1200], [n = 12], and on [zero_rate]. *)
Lemma zero_rate_emi_witness :
  (calculateEMI 1200 0 12%Z = 1200 / inject_Z 12 /\ EMIv2._emi 1200 0 12%Z = 1200 / inject_Z 12) /\
  exists res, calculate LoanExamples.zero_rate = inr res /\
    (exists t, totalInterest res = Some t /\ t == 0) /\ originalTotalInterest res == 0.
Proof.
  split.
  - apply (proj1 zero_rate_emi 1200 0 12%Z); reflexivity.
  - destruct (calculate LoanExamples.zero_rate) as [errs|res] eqn:E;
      [vm_compute in E; discriminate|].
    exists res; split; [reflexivity|].
    exact (proj2 zero_rate_emi LoanExamples.zero_rate res eq_refl E).
Defined.

End LoanZeroRate.

(** ** Tenure from a fixed payment *)

Module TenureProofs.
Import EMIv2.

Lemma Qpow_pos (b : Q) (n : nat) : 0 < b -> 0 < Qpow b n.
Proof.
  intro H; induction n as [|n IH]; simpl; [reflexivity|].
  apply Qmult_lt_0_compat; assumption.
Qed.

Lemma Qpow_bernoulli (r : Q) (n : nat) :
  0 <= r -> 1 + inject_Z (Z.of_nat n) * r <= Qpow (1 + r) n.
Proof.
  intro Hr; induction n as [|n IH]; simpl Qpow.
  - change (inject_Z (Z.of_nat 0)) with 0; lra.
  - rewrite Nat2Z.inj_succ, <- Z.add_1_r, inject_Z_plus.
    change (inject_Z 1) with 1.
    assert (HN : 0 <= inject_Z (Z.of_nat n)) by (change 0 with (inject_Z 0); rewrite <- Zle_Qle; lia).
    assert (0 <= (1 + r) * (Qpow (1 + r) n - (1 + inject_Z (Z.of_nat n) * r)))
      by (apply Qmult_le_0_compat; lra).
    assert (0 <= inject_Z (Z.of_nat n) * r * r)
      by (repeat apply Qmult_le_0_compat; lra).
    lra.
Qed.

Lemma first_months_spec (b x : Q) (fuel : nat) (n k : Z) :
  Loan.first_months b x n fuel = Some k ->
  Qltb 1 b = true ->
  (n <= k)%Z /\ x <= Qpow b (Z.to_nat k) /\
  (forall j, (n <= j < k)%Z -> Qpow b (Z.to_nat j) < x).
Proof.
  revert n; induction fuel as [|fuel IH]; intros n H Hb; [discriminate|].
  simpl in H; rewrite Hb in H.
  destruct (Qle_bool x (Qpow b (Z.to_nat n))) eqn:E.
  - injection H as <-; apply Qle_bool_iff in E.
    split; [lia|split; [exact E|intros; lia]].
  - destruct (IH (n + 1)%Z H Hb) as (H1 & H2 & H3).
    split; [lia|split; [exact H2|]].
    intros j Hj.
    destruct (Z.eq_dec j n) as [->|Hne].
    + apply Qnot_le_lt; intro H'; apply Qle_bool_iff in H'; congruence.
    + apply H3; lia.
Qed.

Lemma first_months_found (b x : Q) (fuel j : nat) (n : Z) :
  Qltb 1 b = true -> (0 <= n)%Z -> (j < fuel)%nat ->
  x <= Qpow b (Z.to_nat (n + Z.of_nat j)) ->
  Loan.first_months b x n fuel <> None.
Proof.
  revert n j; induction fuel as [|fuel IH]; intros n j Hb Hn Hj Hx; [lia|].
  simpl; rewrite Hb.
  destruct (Qle_bool x (Qpow b (Z.to_nat n))) eqn:E; [discriminate|].
  destruct j as [|j].
  - rewrite Z.add_0_r in Hx; apply Qle_bool_iff in Hx; congruence.
  - apply (IH (n + 1)%Z j); [exact Hb|lia|lia|].
    replace (n + 1 + Z.of_nat j)%Z with (n + Z.of_nat (S j))%Z by lia; exact Hx.
Qed.


Lemma monthly_pos (annualRate : Q) : 0 < annualRate -> 0 < annualRate / 100 / 12.
Proof.
  intro H; unfold Qdiv; repeat apply Qmult_lt_0_compat; [exact H|reflexivity|reflexivity].
Qed.

(** C9: for a positive principal and a positive rate, a payment at most
    the interest-only amount [principal * r] is rejected with an error
    ([EmiTooLow], or [EmiNotPositive] when it is not positive), and a
    payment above it gives a finite tenure [n >= 1], the least [n] with
    [(1 + r)^n >= emi / (emi - principal * r)], i.e.
    [ceil(-log(1 - principal * r / emi) / log(1 + r))]. *)
Theorem tenure_degenerate_rejected (principal emi annualRate : Q) :
  0 < principal -> 0 < annualRate ->
  (emi <= principal * (annualRate / 100 / 12) ->
     calculateTenure principal emi annualRate =
     inl (if Qle_bool emi 0 then EmiNotPositive else EmiTooLow)) /\
  (principal * (annualRate / 100 / 12) < emi ->
     exists n, calculateTenure principal emi annualRate = inr n /\ (1 <= n)%Z /\
       emi / (emi - principal * (annualRate / 100 / 12))
         <= Qpow (1 + annualRate / 100 / 12) (Z.to_nat n) /\
       Qpow (1 + annualRate / 100 / 12) (Z.to_nat (n - 1))
         < emi / (emi - principal * (annualRate / 100 / 12))).
Proof.
  intros HP HR.
  pose proof (monthly_pos annualRate HR) as Hr.
  set (r := annualRate / 100 / 12) in *.
  unfold calculateTenure.
  destruct (Qle_bool principal 0) eqn:E1; [apply Qle_bool_iff in E1; lra|].
  assert (E3 : Qltb annualRate 0 = false)
    by (unfold Qltb; apply negb_false_iff, Qle_bool_iff; lra).
  assert (E4 : Qeq_bool annualRate 0 = false)
    by (apply not_true_iff_false; intro H; apply Qeq_bool_iff in H; lra).
  rewrite E3, E4; fold r.
  split.
  - intro He. destruct (Qle_bool emi 0) eqn:E2; [reflexivity|].
    assert (E5 : Qle_bool emi (principal * r) = true) by (apply Qle_bool_iff; exact He).
    rewrite E5; reflexivity.
  - intro He.
    assert (Hpr : 0 < principal * r) by (apply Qmult_lt_0_compat; assumption).
    destruct (Qle_bool emi 0) eqn:E2; [apply Qle_bool_iff in E2; lra|].
    destruct (Qle_bool emi (principal * r)) eqn:E5; [apply Qle_bool_iff in E5; lra|].
    unfold ceil_neg_log_ratio.
    set (x := / (1 - principal * r / emi)).
    assert (Hx : x == emi / (emi - principal * r))
      by (unfold x; field; split; intro; lra).
    assert (Hx1 : 1 < x).
    { rewrite Hx; apply Qlt_shift_div_l; lra. }
    assert (Hb : Qltb 1 (1 + r) = true)
      by (unfold Qltb; apply negb_true_iff; apply not_true_iff_false; intro H;
          apply Qle_bool_iff in H; lra).
    set (N0 := Z.to_nat (Qceiling ((x - 1) / (1 + r - 1)))).
    assert (HN0 : x <= Qpow (1 + r) (Z.to_nat (0 + Z.of_nat N0))).
    { rewrite Z.add_0_l, Nat2Z.id.
      eapply Qle_trans; [|apply Qpow_bernoulli; lra].
      assert (Hq : (x - 1) / (1 + r - 1) <= inject_Z (Z.of_nat N0)).
      { unfold N0; eapply Qle_trans; [apply Qle_ceiling|].
        rewrite <- Zle_Qle; lia. }
      assert (Hq' : (x - 1) / (1 + r - 1) * r == x - 1) by (field; intro; lra).
      assert (Hm : (x - 1) / (1 + r - 1) * r <= inject_Z (Z.of_nat N0) * r)
        by (apply Qmult_le_compat_r; lra).
      lra. }
    pose proof (first_months_found (1 + r) x (S N0) N0 0 Hb (Z.le_refl 0)
                  (Nat.lt_succ_diag_r N0) HN0) as Hf.
    destruct (Loan.first_months (1 + r) x 0 (S N0)) as [k|] eqn:Ek; [|contradiction].
    apply first_months_spec in Ek as (H1 & H2 & H3); [|exact Hb].
    exists k; split; [reflexivity|].
    assert (Hk : (1 <= k)%Z).
    { destruct (Z.eq_dec k 0) as [->|]; [|lia].
      simpl in H2; lra. }
    split; [exact Hk|]; split.
    + rewrite <- Hx; exact H2.
    + rewrite <- Hx; apply H3; lia.
Qed.

(** C9 at principal 1000 and rate 12%: a payment of 5 (interest-only
    amount 10) is rejected, a payment of 500 gives a tenure. *)
Lemma tenure_degenerate_rejected_witness :
  calculateTenure 1000 5 12 = inl EmiTooLow /\
  exists n, calculateTenure 1000 500 12 = inr n /\ (1 <= n)%Z.
Proof.
  split.
  - apply (proj1 (tenure_degenerate_rejected 1000 5 12 ltac:(reflexivity) ltac:(reflexivity))).
    vm_compute; discriminate.
  - destruct (proj2 (tenure_degenerate_rejected 1000 500 12 ltac:(reflexivity) ltac:(reflexivity)))
      as [n [Hn [H1 _]]]; [reflexivity|].
    exists n; split; assumption.
Defined.

End TenureProofs.

(** ** The SIP loop against the closed form *)

Module SIPClosedForm.
Import SIP GoalSeeker SIPExamples.

(** [q + q^2 + ... + q^n]. *)
Fixpoint annuity (q : Q) (n : nat) : Q :=
  match n with
  | O => 0
  | S k => Qpow q (S k) + annuity q k
  end.

Lemma annuity_closed (q : Q) (n : nat) : annuity q n * (q - 1) == (Qpow q n - 1) * q.
Proof.
  induction n as [|n IH]; cbn [annuity Qpow]; [ring|].
  transitivity (q * Qpow q n * (q - 1) + annuity q n * (q - 1)); [ring|].
  rewrite IH; ring.
Qed.

Lemma Qpow_one (q : Q) (n : nat) : q == 1 -> Qpow q n == 1.
Proof.
  intro Hq; induction n as [|n IH]; cbn [Qpow]; [reflexivity|].
  rewrite IH, Hq; reflexivity.
Qed.

Lemma annuity_one (q : Q) (n : nat) : q == 1 -> annuity q n == inject_Z (Z.of_nat n).
Proof.
  intro Hq; induction n as [|n IH]; cbn [annuity]; [reflexivity|].
  rewrite (Qpow_one q (S n) Hq), IH, Nat2Z.inj_succ, <- Z.add_1_r, inject_Z_plus.
  change (inject_Z 1) with 1; ring.
Qed.

Lemma flat_return (name : string) (R : Q) (year : Z) :
  getReturnForYear (addPeriod (mkScenario name []) 1 None R) year = R.
Proof.
  unfold getReturnForYear, addPeriod; cbn.
  destruct (rp_isActiveForYear _ year); reflexivity.
Qed.

Lemma no_stepup (c : SIPConfiguration) (x : Q) (year : Z) :
  stepUpSchedules c = [] -> applySteUpSchedule c x year = x.
Proof. intro H; unfold applySteUpSchedule; rewrite H; reflexivity. Qed.

Lemma sip_loop_S c s months k month balance totalInvested currentSIP rows :
  sip_loop c s months (S k) month balance totalInvested currentSIP rows =
  let year := Loan.yearOfLoan month in
  let currentSIP' :=
    if (1 <? month)%Z && (Z.rem (month - 1) 12 =? 0)%Z
    then applySteUpSchedule c currentSIP year else currentSIP in
  let returnRate := getReturnForYear s year in
  let monthlyReturn := returnRate / 100 / 12 in
  let totalInvested' := Qred (totalInvested + currentSIP') in
  let balance' := Qred ((balance + currentSIP') * (1 + monthlyReturn)) in
  let inflationAdjusted :=
    if Qltb 0 (inflationRate c)
    then balance' / Qpow (1 + inflationRate c / 100 / 12) (Z.to_nat month)
    else balance' in
  let rows' :=
    if (Z.rem month 6 =? 0)%Z || (month =? 1)%Z || (month =? months)%Z
    then rows ++ [mkSIPRow month year currentSIP' balance' inflationAdjusted
                           totalInvested' returnRate]
    else rows in
  sip_loop c s months k (month + 1) balance' totalInvested' currentSIP' rows'.
Proof. reflexivity. Qed.

Lemma sip_loop_flat (c : SIPConfiguration) (s : ReturnScenario) (R : Q) (months : Z)
  (n : nat) : stepUpSchedules c = [] -> (forall year, getReturnForYear s year = R) ->
  forall month balance totalInvested P rows,
  fst (fst (sip_loop c s months n month balance totalInvested P rows)) ==
  balance * Qpow (1 + R / 100 / 12) n + P * annuity (1 + R / 100 / 12) n.
Proof.
  intros Hsu Hret; induction n as [|n IH]; intros month balance ti P rows.
  - cbn [sip_loop fst Qpow annuity]; ring.
  - rewrite sip_loop_S; cbv zeta.
    rewrite !no_stepup by exact Hsu.
    rewrite Hret.
    destruct (_ && _); rewrite IH, Qred_correct; cbn [Qpow annuity]; ring.
Qed.

(** C7: on a plan with one flat return rate [R] and no step-up, the
    final value of the month-by-month loop of [calculate] is exactly
    the closed form [P * ((1 + r)^n - 1) / r * (1 + r)] of
    [calculateFutureValue] ([P * n] when [r = 0]), [r = R / 100 / 12],
    [n = 12 * years]; the inflation rate does not enter the final value.
    (In particular for [P = 15000], [R = 12], [years = 20].) *)
Theorem flat_sip_closed_form (P : Q) (years : nat) (R inflation : Q) (name : string) :
  exists res, SIP.calculate (flat_config P years R inflation name) name = inr res /\
    finalValue res == calculateFutureValue P years R.
Proof.
  unfold SIP.calculate, lookup_scenario, flat_config; cbn [find returnScenarios fst snd].
  rewrite String.eqb_refl.
  set (c := mkSIPConfig P years [] _ inflation).
  set (s := addPeriod (mkScenario name []) 1 None R).
  change (snd (name, s)) with s; change (durationYears c) with years;
  change (monthlyAmount c) with P.
  pose proof (sip_loop_flat c s R (Z.of_nat years * 12) (Z.to_nat (Z.of_nat years * 12))
                eq_refl (flat_return name R) 1 0 0 P []) as L.
  destruct (sip_loop c s _ _ 1 0 0 P []) as [[b ti] rows].
  eexists; split; [reflexivity|]; cbn [finalValue]; cbn [fst] in L.
  replace (Z.to_nat (Z.of_nat years * 12)) with (years * 12)%nat in L by lia.
  unfold calculateFutureValue; cbv zeta.
  destruct (Qeq_bool (R / 100 / 12) 0) eqn:Hr.
  - apply Qeq_bool_eq in Hr.
    assert (Hq : 1 + R / 100 / 12 == 1) by (rewrite Hr; ring).
    rewrite L, (Qpow_one _ _ Hq), (annuity_one _ _ Hq); ring.
  - apply Qeq_bool_neq in Hr.
    rewrite L, Qred_correct.
    pose proof (annuity_closed (1 + R / 100 / 12) (years * 12)) as A.
    set (X := Qpow (1 + R / 100 / 12) (years * 12)) in *.
    set (Y := annuity (1 + R / 100 / 12) (years * 12)) in *.
    assert (HY : Y == (X - 1) * (1 + R / 100 / 12) / (R / 100 / 12)).
    { rewrite <- A. field. intro H; apply Hr. rewrite H; reflexivity. }
    rewrite HY. field. intro H; apply Hr; rewrite H; reflexivity.
Qed.

End SIPClosedForm.

(** ** Depletion of a withdrawal plan *)

Module WithdrawalMonotone.
Import Withdrawal WithdrawalSpec.

Lemma withdraw_loop_S k month adj infl mr balance tw cw rows :
  withdraw_loop (S k) month adj infl mr balance tw cw rows =
  let year := Loan.yearOfLoan month in
  let w :=
    if adj && (1 <? month)%Z && (Z.rem (month - 1) 12 =? 0)%Z
    then Qred (cw * (1 + infl / 100))
    else cw in
  if Qltb balance w then (balance, tw, Some month, rows)
  else
    let b1 := Qred (balance - w) in
    let tw' := Qred (tw + w) in
    let b2 := if Qltb 0 b1 then Qred (b1 * (1 + mr)) else b1 in
    let rows' :=
      if (Z.rem month 6 =? 0)%Z || (month =? 1)%Z || Qle_bool b2 0
      then rows ++ [mkWithdrawalRow month year (js_max b2 0) w tw']
      else rows in
    if Qle_bool b2 0 then (b2, tw', Some month, rows')
    else withdraw_loop k (month + 1) adj infl mr b2 tw' w rows'.
Proof. reflexivity. Qed.

Lemma depletion_leb_succ (month : Z) (d : option Z) :
  depletion_leb (Some (month + 1)%Z) d = true -> depletion_leb (Some month) d = true.
Proof. destruct d; cbn; [rewrite !Z.leb_le; lia | reflexivity]. Qed.

(** The loop never reports a month before the one it starts at. *)
Lemma depleted_ge (fuel : nat) : forall month adj infl mr balance tw cw rows,
  depletion_leb (Some month)
    (loop_depletedAt (withdraw_loop fuel month adj infl mr balance tw cw rows)) = true.
Proof.
  induction fuel as [|k IH]; intros; [reflexivity|].
  rewrite withdraw_loop_S; cbv zeta.
  destruct (Qltb balance _); [apply Z.leb_refl|].
  destruct (Qle_bool _ 0); [apply Z.leb_refl|].
  apply depletion_leb_succ, IH.
Qed.

Lemma withdraw_loop_mono (fuel : nat) : forall month adj infl mr b1 b2 tw1 tw2 cw rows1 rows2,
  b1 <= b2 ->
  depletion_leb (loop_depletedAt (withdraw_loop fuel month adj infl mr b1 tw1 cw rows1))
                (loop_depletedAt (withdraw_loop fuel month adj infl mr b2 tw2 cw rows2)) = true.
Proof.
  induction fuel as [|k IH]; intros month adj infl mr b1 b2 tw1 tw2 cw rows1 rows2 Hb;
    [reflexivity|].
  pose proof (depleted_ge (S k) month adj infl mr b2 tw2 cw rows2) as G.
  rewrite (withdraw_loop_S k month adj infl mr b1); cbv zeta.
  set (w := if adj && (1 <? month)%Z && (Z.rem (month - 1) 12 =? 0)%Z
            then Qred (cw * (1 + infl / 100)) else cw) in *.
  destruct (Qltb b1 w) eqn:E1; [exact G|].
  set (B1 := Qred (b1 - w)).
  set (C1 := if Qltb 0 B1 then Qred (B1 * (1 + mr)) else B1).
  destruct (Qle_bool C1 0) eqn:F1; [exact G|].
  clear G.
  rewrite withdraw_loop_S; cbv zeta; fold w.
  apply LoanMonotone.Qltb_false in E1.
  apply LoanMonotone.Qle_bool_false in F1.
  assert (E2 : Qltb b2 w = false).
  { destruct (Qltb b2 w) eqn:E2; [|reflexivity].
    apply LoanMonotone.Qltb_true in E2; lra. }
  rewrite E2.
  set (B2 := Qred (b2 - w)).
  assert (HB : B1 <= B2) by (unfold B1, B2; rewrite !Qred_correct; lra).
  assert (HB1 : 0 <= B1) by (unfold B1; rewrite Qred_correct; lra).
  unfold C1 in F1.
  destruct (Qltb 0 B1) eqn:P1; [|apply LoanMonotone.Qltb_false in P1; lra].
  apply LoanMonotone.Qltb_true in P1.
  rewrite Qred_correct in F1.
  assert (Hm : 0 < 1 + mr).
  { destruct (Qlt_le_dec 0 (1 + mr)) as [H|H]; [exact H|].
    exfalso. assert (B1 * (1 + mr) <= 0) by nra. lra. }
  assert (P2 : Qltb 0 B2 = true).
  { destruct (Qltb 0 B2) eqn:P2; [reflexivity|].
    apply LoanMonotone.Qltb_false in P2; lra. }
  rewrite P2.
  assert (HC : B1 * (1 + mr) <= B2 * (1 + mr)) by nra.
  assert (F2 : Qle_bool (Qred (B2 * (1 + mr))) 0 = false).
  { destruct (Qle_bool (Qred (B2 * (1 + mr))) 0) eqn:F2; [|reflexivity].
    apply Qle_bool_iff in F2; rewrite Qred_correct in F2; lra. }
  rewrite F2.
  apply IH. unfold C1; rewrite !Qred_correct; exact HC.
Qed.

(** C8: for a fixed withdrawal, duration, return, inflation rate and
    inflation-adjustment flag, a larger initial corpus never makes the
    plan deplete earlier: if the smaller corpus lasts through the plan
    ([depletedAt = null]) so does the larger, and if the larger depletes
    at some month, the smaller depletes at that month or before. *)
Theorem depletion_monotone (corpus1 corpus2 monthlyWithdrawal : Q) (years : nat)
  (annualReturn inflationRate : Q) (inflationAdjusted : bool) :
  corpus1 <= corpus2 ->
  depletion_leb
    (depletedAt (calculate corpus1 monthlyWithdrawal years annualReturn inflationRate
                           inflationAdjusted))
    (depletedAt (calculate corpus2 monthlyWithdrawal years annualReturn inflationRate
                           inflationAdjusted)) = true.
Proof.
  intro H.
  pose proof (withdraw_loop_mono (years * 12) 1 inflationAdjusted inflationRate
                (annualReturn / 100 / 12) corpus1 corpus2 0 0 monthlyWithdrawal [] [] H) as M.
  unfold calculate; cbv zeta.
  destruct (withdraw_loop _ _ _ _ _ corpus1 _ _ _) as [[[x1 y1] d1] r1].
  destruct (withdraw_loop _ _ _ _ _ corpus2 _ _ _) as [[[x2 y2] d2] r2].
  exact M.
Qed.

(** C8 on a plan of 1000 a month for 10 years at 8% with 6% inflation
    adjustment, for the corpora 50000 and 100000. *)
Lemma depletion_monotone_witness :
  50000 <= 100000 /\
  depletion_leb (depletedAt (calculate 50000 1000 10 8 6 true))
                (depletedAt (calculate 100000 1000 10 8 6 true)) = true.
Proof.
  split; [vm_compute; discriminate|].
  apply depletion_monotone; vm_compute; discriminate.
Defined.

End WithdrawalMonotone.

(** ** The goal seeker *)

Module GoalSeekerProofs.
Import GoalSeeker.

Lemma Qltb_t (a b : Q) : Qltb a b = true -> a < b.
Proof. exact (LoanMonotone.Qltb_true a b). Qed.
Lemma Qltb_f (a b : Q) : Qltb a b = false -> b <= a.
Proof. exact (LoanMonotone.Qltb_false a b). Qed.

(** The future value is linear in the monthly amount. *)
Lemma fv_linear (s : Q) (years : nat) (R : Q) :
  calculateFutureValue s years R == s * calculateFutureValue 1 years R.
Proof.
  unfold calculateFutureValue; cbv zeta.
  destruct (Qeq_bool _ 0); [|rewrite !Qred_correct]; ring.
Qed.

Lemma months_ge_12 (years : nat) : (1 <= years)%nat -> 12 <= inject_Z (Z.of_nat (years * 12)).
Proof. intro H; change 12 with (inject_Z 12); rewrite <- Zle_Qle; lia. Qed.

(** One unit a month for at least a year at a non-negative return grows
    to at least 12. *)
Lemma fv_unit_ge (years : nat) (R : Q) :
  (1 <= years)%nat -> 0 <= R -> 12 <= calculateFutureValue 1 years R.
Proof.
  intros Hy HR; pose proof (months_ge_12 years Hy) as Hn.
  unfold calculateFutureValue; cbv zeta.
  destruct (Qeq_bool (R / 100 / 12) 0) eqn:Hr.
  - lra.
  - apply Qeq_bool_neq in Hr; rewrite Qred_correct.
    assert (Hr0 : 0 < R / 100 / 12).
    { destruct (Qlt_le_dec 0 (R / 100 / 12)) as [H|H]; [exact H|].
      exfalso; apply Hr.
      assert (0 <= R / 100 / 12).
      { apply Qle_shift_div_l; [reflexivity|]. apply Qle_shift_div_l; [reflexivity|]. lra. }
      lra. }
    pose proof (TenureProofs.Qpow_bernoulli (R / 100 / 12) (years * 12) (Qlt_le_weak _ _ Hr0)) as B.
    set (r := R / 100 / 12) in *.
    set (X := Qpow (1 + r) (years * 12)) in *.
    set (n := inject_Z (Z.of_nat (years * 12))) in *.
    assert (D : n <= (X - 1) / r).
    { apply Qle_shift_div_l; [exact Hr0|]. lra. }
    set (D' := (X - 1) / r) in *.
    assert (0 <= D' * r) by (apply Qmult_le_0_compat; lra).
    setoid_replace (1 * D' * (1 + r)) with (D' + D' * r) by ring.
    set (u := D' * r) in *. lra.
Qed.

Lemma newton_loop_S fv T k it sip :
  newton_loop fv T (S k) it sip =
  let f := fv sip in
  let error := f - T in
  if Qltb (Qabs error) tolerance then Converged sip
  else
    let delta := 1 in
    let derivative := (fv (sip + delta) - f) / delta in
    if Qltb (Qabs derivative) (1 # 1000) then Stopped it sip
    else
      let sip' := Qred (sip - error / derivative) in
      newton_loop fv T k (S it) (if Qltb sip' 100 then 100 else sip').
Proof. reflexivity. Qed.

Lemma bisect_S fv T k low high :
  bisect fv T (S k) low high =
  if Qltb 1 (high - low) then
    let mid := Qred ((low + high) / 2) in
    let f := fv mid in
    if Qltb (Qabs (f - T)) tolerance then mid
    else if Qltb f T then bisect fv T k mid high
    else bisect fv T k low mid
  else (low + high) / 2.
Proof. reflexivity. Qed.

Section Linear.

Variables (years : nat) (R T : Q).
Hypothesis Hy : (1 <= years)%nat.
Hypothesis HR : 0 <= R.
Hypothesis HT : 0 < T.

Let fv := fun s => calculateFutureValue s years R.
Let K := calculateFutureValue 1 years R.

Lemma fvK (s : Q) : fv s == s * K.
Proof. apply fv_linear. Qed.

Lemma K_ge : 12 <= K.
Proof. apply fv_unit_ge; assumption. Qed.

Lemma derivative_not_small (sip : Q) :
  Qltb (Qabs ((fv (sip + 1) - fv sip) / 1)) (1 # 1000) = false.
Proof.
  pose proof K_ge.
  destruct (Qltb _ _) eqn:E; [|reflexivity].
  apply Qltb_t in E. rewrite !fvK in E.
  assert (Hd : (sip + 1) * K - sip * K == K) by ring.
  rewrite Hd in E. setoid_replace (K / 1) with K in E by field.
  rewrite Qabs_pos in E by lra. lra.
Qed.

Lemma newton_converged (fuel : nat) : forall it sip s,
  newton_loop fv T fuel it sip = Converged s -> T - 100 < fv s.
Proof.
  induction fuel as [|k IH]; intros it sip s H; [discriminate|].
  rewrite newton_loop_S in H; cbv zeta in H.
  destruct (Qltb (Qabs (fv sip - T)) tolerance) eqn:E.
  - injection H as <-. apply Qltb_t, Qabs_Qlt_condition in E.
    unfold tolerance in E; lra.
  - rewrite derivative_not_small in H. eapply IH; exact H.
Qed.

Lemma newton_stopped_exhausted (fuel : nat) : forall it sip it' s,
  newton_loop fv T fuel it sip = Stopped it' s -> it' = (it + fuel)%nat.
Proof.
  induction fuel as [|k IH]; intros it sip it' s H.
  - injection H as <- <-; lia.
  - rewrite newton_loop_S in H; cbv zeta in H.
    destruct (Qltb _ tolerance); [discriminate|].
    rewrite derivative_not_small in H.
    apply IH in H; lia.
Qed.

(** One Newton step lands on [T / K]. *)
Lemma newton_step (sip : Q) :
  Qred (sip - (fv sip - T) / ((fv (sip + 1) - fv sip) / 1)) == T / K.
Proof.
  pose proof K_ge.
  rewrite Qred_correct, !fvK. field. lra.
Qed.

Lemma newton_at_root (k it : nat) (sip : Q) :
  sip == T / K -> exists s, newton_loop fv T (S k) it sip = Converged s.
Proof.
  intro Hs; pose proof K_ge.
  rewrite newton_loop_S; cbv zeta.
  destruct (Qltb (Qabs (fv sip - T)) tolerance) eqn:E; [eexists; reflexivity|].
  exfalso; apply Qltb_f in E.
  rewrite fvK, Hs in E.
  setoid_replace (T / K * K - T) with 0 in E by (field; lra).
  unfold tolerance in E; simpl in E; lra.
Qed.

(** Newton leaves its loop without converging only when [T / K] lies
    below the clamp 100. *)
Lemma newton_stopped_clamped (k : nat) (it it' : nat) (sip s : Q) :
  newton_loop fv T (S (S k)) it sip = Stopped it' s -> T < 100 * K.
Proof.
  intro H; pose proof K_ge.
  rewrite newton_loop_S in H; cbv zeta in H.
  destruct (Qltb _ tolerance); [discriminate|].
  rewrite derivative_not_small in H.
  pose proof (newton_step sip) as St.
  set (sip' := Qred _) in H, St.
  destruct (Qltb sip' 100) eqn:C.
  - apply Qltb_t in C. rewrite St in C.
    destruct (Qlt_le_dec T (100 * K)) as [L|L]; [exact L|].
    assert (100 <= T / K) by (apply Qle_shift_div_l; lra). lra.
  - destruct (newton_at_root k (S it) sip' St) as [s' Hc]. congruence.
Qed.

Lemma bisect_above (fuel : nat) : forall low high,
  T < fv low -> T <= fv high -> T - 100 < fv (bisect fv T fuel low high).
Proof.
  assert (Mid : forall l h, T < fv l -> T <= fv h -> T < fv ((l + h) / 2)).
  { intros l h Hl Hh. rewrite (fvK l) in Hl; rewrite (fvK h) in Hh; rewrite fvK.
    setoid_replace ((l + h) / 2 * K) with ((l * K + h * K) * (1 # 2)) by field.
    set (a := l * K) in *; set (b := h * K) in *; lra. }
  induction fuel as [|k IH]; intros low high Hl Hh.
  - cbn [bisect]. pose proof (Mid low high Hl Hh); lra.
  - rewrite bisect_S; cbv zeta.
    destruct (Qltb 1 (high - low)); [|pose proof (Mid low high Hl Hh); lra].
    assert (Hm : T < fv (Qred ((low + high) / 2))).
    { unfold fv; rewrite fv_linear, Qred_correct, <- fv_linear. apply Mid; assumption. }
    destruct (Qltb (Qabs (fv (Qred ((low + high) / 2)) - T)) tolerance); [lra|].
    destruct (Qltb (fv (Qred ((low + high) / 2))) T) eqn:E.
    + apply Qltb_t in E; lra.
    + apply IH; [exact Hl|lra].
Qed.

Lemma newtonRaphson_above : T - 100 < fv (newtonRaphsonMethod T years R).
Proof.
  pose proof K_ge.
  unfold newtonRaphsonMethod; fold fv.
  destruct (newton_loop fv T maxIterations 0 _) as [s|it s] eqn:E.
  - eapply newton_converged; exact E.
  - pose proof (newton_stopped_exhausted _ _ _ _ _ E) as Hit.
    subst it. change ((maxIterations <=? 0 + maxIterations)%nat) with true; cbv iota.
    unfold binarySearchMethod. apply bisect_above.
    + pose proof (newton_stopped_clamped 98 0 100 _ s E). rewrite fvK; lra.
    + rewrite fvK.
      setoid_replace (T / 12 * K) with (T + T * (K - 12) * (1 # 12)) by field.
      assert (0 <= T * (K - 12)).
      { apply Qmult_le_0_compat; [apply Qlt_le_weak, HT|].
        unfold Qminus; apply (proj1 (Qle_minus_iff 12 K)); assumption. }
      set (a := T * (K - 12)) in *; lra.
Qed.

End Linear.

Lemma requiredSIP_no_stepup (T : Q) (years : nat) (R : Q) :
  requiredSIP (calculateRequiredSIP T years R 0 0) =
  js_ceil (newtonRaphsonMethod T years R / 100) * 100.
Proof. reflexivity. Qed.

(** Rounding the contribution up to a multiple of 100 only raises
    its (linear) future value. *)
Lemma ceil_keeps_above (s T K : Q) :
  T - 100 < s * K -> 12 <= K -> T - 100 < js_ceil (s / 100) * 100 * K.
Proof.
  intros N HK.
  assert (Hc : s <= js_ceil (s / 100) * 100).
  { unfold js_ceil. pose proof (Qle_ceiling (s / 100)).
    setoid_replace s with (s / 100 * 100) at 1 by field.
    apply Qmult_le_compat_r; [assumption|discriminate]. }
  set (c := js_ceil (s / 100) * 100) in *; clearbody c.
  assert (s * K <= c * K) by (apply Qmult_le_compat_r; [exact Hc|lra]).
  set (a := s * K) in *; set (b := c * K) in *; lra.
Qed.

(** C5 (amended): for a target [T > 0], at least one year and a return
    [R >= 0], with no step-up and no inflation, the contribution
    [requiredSIP] returned by [calculateRequiredSIP] never falls short:
    its closed-form future value exceeds [T - 100]; the result is always
    reported as a success. (It can overshoot [T] by more than 100, from
    the rounding up to a multiple of 100.) *)
Theorem goal_roundtrip_lower (T : Q) (years : nat) (R : Q) :
  0 < T -> (1 <= years)%nat -> 0 <= R ->
  goal_success (calculateRequiredSIP T years R 0 0) = true /\
  T - 100 < calculateFutureValue (requiredSIP (calculateRequiredSIP T years R 0 0)) years R.
Proof.
  intros HT Hy HR; split; [reflexivity|].
  rewrite requiredSIP_no_stepup, fv_linear.
  apply ceil_keeps_above; [|exact (fv_unit_ge years R Hy HR)].
  rewrite <- fv_linear. exact (newtonRaphson_above years R T Hy HR HT).
Qed.

(** C5 at [T = 1000000], one year, return 0. *)
Lemma goal_roundtrip_lower_witness :
  (0 < 1000000 /\ (1 <= 1)%nat /\ 0 <= 0) /\
  (goal_success (calculateRequiredSIP 1000000 1 0 0 0) = true /\
   1000000 - 100 < calculateFutureValue (requiredSIP (calculateRequiredSIP 1000000 1 0 0 0)) 1 0).
Proof.
  split; [split; [reflexivity|split; [apply le_n|discriminate]]|].
  apply (goal_roundtrip_lower 1000000 1 0); [reflexivity|apply le_n|discriminate].
Defined.

(** C5 (as stated) fails: for a target of 1000000 over one year at
    return 0, the contribution is rounded up from 1000000 / 12 to 83400,
    whose future value 1000800 lies 800 above the target, while the
    result is reported as a success with no flag. *)
Lemma goal_roundtrip_counterexample :
  goal_success (calculateRequiredSIP 1000000 1 0 0 0) = true /\
  requiredSIP (calculateRequiredSIP 1000000 1 0 0 0) == 83400 /\
  calculateFutureValue (requiredSIP (calculateRequiredSIP 1000000 1 0 0 0)) 1 0 == 1000800.
Proof. split; [reflexivity|split; vm_compute; reflexivity]. Qed.




End GoalSeekerProofs.

Module LoanSchedule.
Import Loan.

Definition start_le (a b : InterestRatePeriod) : Prop := (startMonth a <= startMonth b)%Z.

Lemma insert_by_start_perm (x : InterestRatePeriod) (l : list InterestRatePeriod) :
  Permutation (insert_by_start x l) (x :: l).
Proof.
  induction l as [|y ys IH]; simpl; [auto|].
  destruct (startMonth x <=? startMonth y)%Z; [auto|].
  rewrite IH; apply perm_swap.
Qed.

Lemma sort_by_start_perm (l : list InterestRatePeriod) : Permutation (sort_by_start l) l.
Proof.
  induction l as [|x xs IH]; simpl; [auto|].
  rewrite insert_by_start_perm; auto.
Qed.

Lemma insert_by_start_sorted (x : InterestRatePeriod) (l : list InterestRatePeriod) :
  Sorted start_le l -> Sorted start_le (insert_by_start x l).
Proof.
  intro H; induction H as [|y ys Hs IH Hhd]; simpl; [auto|].
  destruct (startMonth x <=? startMonth y)%Z eqn:E.
  - apply Z.leb_le in E; constructor; [constructor; auto|constructor; exact E].
  - apply Z.leb_gt in E; constructor; [exact IH|].
    destruct ys as [|z zs]; simpl; [constructor; unfold start_le; lia|].
    inversion Hhd; subst.
    destruct (startMonth x <=? startMonth z)%Z; constructor; unfold start_le in *; lia.
Qed.

Lemma sort_by_start_sorted (l : list InterestRatePeriod) : Sorted start_le (sort_by_start l).
Proof. induction l; simpl; [constructor|apply insert_by_start_sorted; assumption]. Qed.

Definition same_start (k : Z) (p : InterestRatePeriod) : bool := (startMonth p =? k)%Z.
Arguments same_start : simpl never.

Lemma insert_by_start_filter (k : Z) (x : InterestRatePeriod) (l : list InterestRatePeriod) :
  filter (same_start k) (insert_by_start x l) = filter (same_start k) (x :: l).
Proof.
  induction l as [|y ys IH]; simpl; [reflexivity|].
  destruct (startMonth x <=? startMonth y)%Z eqn:E; [reflexivity|].
  apply Z.leb_gt in E. simpl. rewrite IH. simpl. unfold same_start.
  destruct (startMonth y =? k)%Z eqn:Ey, (startMonth x =? k)%Z eqn:Ex; try reflexivity.
  apply Z.eqb_eq in Ey; apply Z.eqb_eq in Ex; lia.
Qed.

Lemma sort_by_start_filter (k : Z) (l : list InterestRatePeriod) :
  filter (same_start k) (sort_by_start l) = filter (same_start k) l.
Proof.
  induction l as [|x xs IH]; [reflexivity|].
  simpl sort_by_start; rewrite insert_by_start_filter; simpl; rewrite IH; reflexivity.
Qed.

(** [addRatePeriod] leaves the schedule sorted by start month and
    holding exactly the previous periods and the new one. *)
Theorem addRatePeriod_sorted_perm (c : LoanConfiguration) (s : Z) (r : Q) (e : option Z) :
  Sorted start_le (interestRateSchedule (addRatePeriod c s r e)) /\
  Permutation (interestRateSchedule (addRatePeriod c s r e))
              (interestRateSchedule c ++ [mkRatePeriod s r e]).
Proof. split; [apply sort_by_start_sorted|apply sort_by_start_perm]. Qed.

(** the sort of [addRatePeriod] is stable: the periods sharing a
    start month keep the order in which they were added, so the new period
    comes after the older ones with its start month. *)
Theorem addRatePeriod_stable (c : LoanConfiguration) (s : Z) (r : Q) (e : option Z) (k : Z) :
  filter (fun p => (startMonth p =? k)%Z) (interestRateSchedule (addRatePeriod c s r e)) =
  filter (fun p => (startMonth p =? k)%Z) (interestRateSchedule c ++ [mkRatePeriod s r e]).
Proof. apply (sort_by_start_filter k). Qed.

End LoanSchedule.

Module LoanYearly.
Import Loan.

Lemma month_decomp (m : Z) : (1 <= m)%Z -> m = (12 * (yearOfLoan m - 1) + monthInYear m)%Z.
Proof.
  intro Hm; unfold yearOfLoan, monthInYear.
  pose proof (Z.div_mod (- m) 12 ltac:(lia)) as Hd.
  pose proof (Z.mod_pos_bound (- m) 12 ltac:(lia)) as Hb.
  pose proof (Z.quot_rem (m - 1) 12 ltac:(lia)) as Hq.
  pose proof (Z.rem_bound_pos (m - 1) 12 ltac:(lia) ltac:(lia)) as Hr.
  lia.
Qed.

(** a yearly prepayment is active in at most one month of each loan
    year. *)
Theorem yearly_once_per_year (p : YearlyPrepayment) (m1 m2 : Z) :
  (1 <= m1)%Z -> (1 <= m2)%Z ->
  yp_isActiveForMonth p m1 = true -> yp_isActiveForMonth p m2 = true ->
  yearOfLoan m1 = yearOfLoan m2 -> m1 = m2.
Proof.
  intros H1 H2 A1 A2 Hy.
  unfold yp_isActiveForMonth in A1, A2.
  apply andb_true_iff in A1 as [[A1 _]%andb_true_iff _].
  apply andb_true_iff in A2 as [[A2 _]%andb_true_iff _].
  apply Z.eqb_eq in A1; apply Z.eqb_eq in A2.
  rewrite (month_decomp m1 H1), (month_decomp m2 H2); lia.
Qed.

Lemma yearly_once_per_year_witness :
  yp_isActiveForMonth (mkYearly 5000 3 1 None None) 15 = true /\ 15%Z = 15%Z.
Proof.
  split; [reflexivity|].
  apply (yearly_once_per_year (mkYearly 5000 3 1 None None) 15 15);
    [lia | lia | reflexivity | reflexivity | reflexivity].
Defined.

End LoanYearly.

Module LoanPrepayment.
Import Loan.

Definition sumQ (l : list Q) : Q := fold_right Qplus 0 l.

Lemma scan_spec {A : Type} (isActive : A -> bool) (amount : A -> Q) (label : string)
  (strategy : A -> option Strategy) (l : list A) (a : Q) (t : list string) (st : option Strategy) :
  fst (fst (scan isActive amount label strategy l (a, t, st))) ==
    a + sumQ (map amount (filter isActive l)) /\
  snd (fst (scan isActive amount label strategy l (a, t, st))) =
    (t ++ repeat label (List.length (filter isActive l)))%list.
Proof.
  unfold scan; revert a t st; induction l as [|p ps IH]; intros a t st; simpl.
  - split; [ring | rewrite app_nil_r; reflexivity].
  - destruct (isActive p); simpl.
    + destruct (IH (a + amount p) (t ++ [label])%list (override st (strategy p))) as [H1 H2].
      split; [rewrite H1; ring | rewrite H2, <- app_assoc; reflexivity].
    + apply IH.
Qed.

Lemma concat_labels_not_none (lab : string) (rest : list string) :
  In lab ["monthly"; "yearly"; "lump-sum"]%string ->
  String.concat " + " (lab :: rest) <> "none"%string.
Proof.
  intros Hin; destruct rest; simpl in Hin |- *;
    repeat destruct Hin as [<-|Hin]; try contradiction; simpl; discriminate.
Qed.

(** the amount [getPrepaymentForMonth] reports is the sum of the
    amounts of every active monthly, yearly and one-time entry. *)
Theorem prepayment_amount_sum (c : LoanConfiguration) (m : Z) :
  pi_amount (getPrepaymentForMonth c m) ==
    sumQ (map mp_amount (filter (fun p => mp_isActiveForMonth p m) (monthly (prepaymentStrategy c)))) +
    sumQ (map yp_amount (filter (fun p => yp_isActiveForMonth p m) (yearly (prepaymentStrategy c)))) +
    sumQ (map op_amount (filter (fun p => op_isActiveForMonth p m) (oneTime (prepaymentStrategy c)))).
Proof.
  unfold getPrepaymentForMonth.
  destruct (scan_spec (fun p => mp_isActiveForMonth p m) mp_amount "monthly" mp_strategy
              (monthly (prepaymentStrategy c)) 0 [] None) as [A1 _].
  destruct (scan (fun p => mp_isActiveForMonth p m) mp_amount "monthly" mp_strategy
              (monthly (prepaymentStrategy c)) (0, [], None)) as [[a1 t1] s1].
  destruct (scan_spec (fun p => yp_isActiveForMonth p m) yp_amount "yearly" yp_strategy
              (yearly (prepaymentStrategy c)) a1 t1 s1) as [A2 _].
  destruct (scan (fun p => yp_isActiveForMonth p m) yp_amount "yearly" yp_strategy
              (yearly (prepaymentStrategy c)) (a1, t1, s1)) as [[a2 t2] s2].
  destruct (scan_spec (fun p => op_isActiveForMonth p m) op_amount "lump-sum" op_strategy
              (oneTime (prepaymentStrategy c)) a2 t2 s2) as [A3 _].
  destruct (scan (fun p => op_isActiveForMonth p m) op_amount "lump-sum" op_strategy
              (oneTime (prepaymentStrategy c)) (a2, t2, s2)) as [[a3 t3] s3].
  simpl in *. rewrite A3, A2, A1. ring.
Qed.

(** [getPrepaymentForMonth] reports the type ["none"] exactly when
    no monthly, yearly or one-time entry is active in the month. *)
Theorem prepayment_type_none (c : LoanConfiguration) (m : Z) :
  pi_type (getPrepaymentForMonth c m) = "none"%string <->
  filter (fun p => mp_isActiveForMonth p m) (monthly (prepaymentStrategy c)) = [] /\
  filter (fun p => yp_isActiveForMonth p m) (yearly (prepaymentStrategy c)) = [] /\
  filter (fun p => op_isActiveForMonth p m) (oneTime (prepaymentStrategy c)) = [].
Proof.
  unfold getPrepaymentForMonth.
  destruct (scan_spec (fun p => mp_isActiveForMonth p m) mp_amount "monthly" mp_strategy
              (monthly (prepaymentStrategy c)) 0 [] None) as [_ T1].
  destruct (scan (fun p => mp_isActiveForMonth p m) mp_amount "monthly" mp_strategy
              (monthly (prepaymentStrategy c)) (0, [], None)) as [[a1 t1] s1].
  destruct (scan_spec (fun p => yp_isActiveForMonth p m) yp_amount "yearly" yp_strategy
              (yearly (prepaymentStrategy c)) a1 t1 s1) as [_ T2].
  destruct (scan (fun p => yp_isActiveForMonth p m) yp_amount "yearly" yp_strategy
              (yearly (prepaymentStrategy c)) (a1, t1, s1)) as [[a2 t2] s2].
  destruct (scan_spec (fun p => op_isActiveForMonth p m) op_amount "lump-sum" op_strategy
              (oneTime (prepaymentStrategy c)) a2 t2 s2) as [_ T3].
  destruct (scan (fun p => op_isActiveForMonth p m) op_amount "lump-sum" op_strategy
              (oneTime (prepaymentStrategy c)) (a2, t2, s2)) as [[a3 t3] s3].
  simpl in *. subst t1 t2 t3.
  set (l1 := filter (fun p => mp_isActiveForMonth p m) (monthly (prepaymentStrategy c))).
  set (l2 := filter (fun p => yp_isActiveForMonth p m) (yearly (prepaymentStrategy c))).
  set (l3 := filter (fun p => op_isActiveForMonth p m) (oneTime (prepaymentStrategy c))).
  destruct l1 as [|x1 r1], l2 as [|x2 r2], l3 as [|x3 r3]; simpl;
    (split; [|intros [H1 [H2 H3]]; try discriminate H1; try discriminate H2;
              try discriminate H3; reflexivity]);
    intro H; try (split; [reflexivity|split; reflexivity]); exfalso; revert H;
    apply concat_labels_not_none; simpl; tauto.
Qed.

End LoanPrepayment.

Module LoanResultBounds.
Import Loan.

Lemma step_shape (c : LoanConfiguration) (s : LoopState) (b : Q) :
  st_month (step c s b) = (st_month s + 1)%Z /\
  exists row, st_schedule (step c s b) = (st_schedule s ++ [row])%list /\
    row_month row = (st_month s + 1)%Z /\
    row_rate row = getInterestRateForMonth (interestRateSchedule c) (st_month s + 1).
Proof.
  unfold step; cbv zeta.
  lazymatch goal with |- context [match ?X with (_, _) => _ end] =>
    destruct X as [[? ?] ?] end.
  split; [reflexivity|]. eexists; split; [reflexivity|split; reflexivity].
Qed.

Definition rows_ok (sched : list InterestRatePeriod) (s : LoopState) : Prop :=
  (0 <= st_month s)%Z /\
  map row_month (st_schedule s) = map Z.of_nat (seq 1 (Z.to_nat (st_month s))) /\
  Forall (fun r => In (row_rate r) (map rate sched)) (st_schedule s).

Lemma rate_in (sched : list InterestRatePeriod) (m : Z) :
  sched <> [] -> In (getInterestRateForMonth sched m) (map rate sched).
Proof.
  intro Hne; unfold getInterestRateForMonth.
  assert (H : forall l acc,
    (forall r, acc = Some r -> In r (map rate sched)) ->
    incl l sched ->
    forall r, fold_left (fun acc p => if isActiveForMonth p m then Some (rate p) else acc) l acc
              = Some r -> In r (map rate sched)).
  { induction l as [|p ps IH]; intros acc Ha Hl r Hr; simpl in Hr; [exact (Ha r Hr)|].
    apply (IH (if isActiveForMonth p m then Some (rate p) else acc)) with (r := r); [| intros x Hx; apply Hl; right; exact Hx | exact Hr].
    intros r' Hr'; destruct (isActiveForMonth p m); [|exact (Ha r' Hr')].
    injection Hr' as <-; apply in_map, Hl; left; reflexivity. }
  destruct (fold_left _ sched None) as [r|] eqn:E.
  - apply (H sched None); [discriminate | apply incl_refl | exact E].
  - destruct sched as [|p ps]; [contradiction|left; reflexivity].
Qed.

Lemma calc_loop_rows (c : LoanConfiguration) (f : nat) (s : LoopState) :
  interestRateSchedule c <> [] -> rows_ok (interestRateSchedule c) s ->
  rows_ok (interestRateSchedule c) (calc_loop c f s) /\
  (st_month (calc_loop c f s) <= st_month s + Z.of_nat f)%Z.
Proof.
  intro Hne; revert s; induction f as [|f IH]; intros s Hs; simpl; [split; [exact Hs|lia]|].
  destruct (st_balance s) as [b|]; [|split; [exact Hs|lia]].
  destruct (Qltb (1 # 100) b); [|split; [exact Hs|lia]].
  destruct (step_shape c s b) as [Hm [row [Hsch [Hrm Hrr]]]].
  assert (Hs' : rows_ok (interestRateSchedule c) (step c s b)).
  { destruct Hs as [H0 [H1 H2]]; split; [lia|split].
    - rewrite Hsch, Hm, map_app, H1, Z2Nat.inj_add, seq_app, map_app by lia.
      simpl; rewrite Hrm; f_equal; f_equal; lia.
    - rewrite Hsch; apply Forall_app; split; [exact H2|].
      constructor; [rewrite Hrr; apply rate_in; exact Hne|constructor]. }
  destruct (jle (st_balance (step c s b)) (Some (1 # 100))).
  - split; [exact Hs'|cbn [st_month]; lia].
  - destruct (IH _ Hs') as [H1 H2]; split; [exact H1|lia].
Qed.

Lemma orig_month_le (c : LoanConfiguration) (e : Q) (f : nat) (m : Z) (b t : Q) :
  (fst (fst (original_loop c e f m b t)) <= m + Z.of_nat f)%Z.
Proof.
  revert m b t; induction f as [|f IH]; intros m b t; simpl; [lia|].
  destruct (Qltb (1 # 100) b); [|simpl; lia]. cbv zeta.
  destruct (Qle_bool _ (1 # 100)); [simpl; lia|].
  match goal with |- context [original_loop c e f _ ?B ?T] =>
    specialize (IH (m + 1)%Z B T) end.
  lia.
Qed.

Lemma validate_ok (c : LoanConfiguration) :
  validate c = [] -> (0 < baseTenureMonths c)%Z /\ interestRateSchedule c <> [].
Proof.
  unfold validate; intro H.
  destruct (baseTenureMonths c <=? 0)%Z eqn:Et;
    [destruct (Qle_bool (principal c) 0); discriminate|].
  destruct (interestRateSchedule c) as [|p ps];
    [destruct (Qle_bool (principal c) 0); discriminate|].
  split; [apply Z.leb_gt; exact Et|discriminate].
Qed.

(** a successful [calculate] stops within its safety limits: the
    loan takes between [0] and [3 * tenure] months and the baseline
    between [0] and [2 * tenure]; its schedule has one row per month,
    numbered [1, 2, ..., months]. *)
Theorem calculate_month_rows (c : LoanConfiguration) (res : LoanResult) :
  calculate c = inr res ->
  (0 <= months res <= 3 * baseTenureMonths c)%Z /\
  (0 <= originalMonths res <= 2 * baseTenureMonths c)%Z /\
  map row_month (amortizationSchedule res) = map Z.of_nat (seq 1 (Z.to_nat (months res))).
Proof.
  unfold calculate; destruct (validate c) as [|e errs] eqn:Ev; [|discriminate].
  intro H; injection H as <-; cbn [months originalMonths amortizationSchedule].
  destruct (validate_ok c Ev) as [Ht Hne].
  destruct (calc_loop_rows c (Z.to_nat (baseTenureMonths c * 3))
              (mkState 0 (Some (principal c)) (Some (calculateInitialEMI c)) (Some 0) (Some 0) []) Hne)
    as [[H0 [H1 _]] H2].
  { split; [cbn; lia|split; [reflexivity|constructor]]. }
  unfold calculateOriginalLoan.
  pose proof (LoanMonotone.orig_month_ge c (calculateInitialEMI c) (Z.to_nat (baseTenureMonths c * 2)) 0
               (principal c) 0) as G1.
  pose proof (orig_month_le c (calculateInitialEMI c) (Z.to_nat (baseTenureMonths c * 2)) 0
               (principal c) 0) as G2.
  destruct (original_loop _ _ _ _ _ _) as [[om ob] oti]; cbn [fst ol_months] in *.
  cbn [st_month] in H2; rewrite Z2Nat.id in G2, H2 by lia.
  split; [lia|split; [lia|exact H1]].
Qed.

Lemma sum_rates (rows : list Row) (a : Q) :
  fold_left (fun acc r => acc + row_rate r) rows a == a + fold_right Qplus 0 (map row_rate rows).
Proof.
  revert a; induction rows as [|r rs IH]; intro a; simpl; [ring|].
  rewrite IH; ring.
Qed.

Lemma inject_succ (n : nat) : inject_Z (Z.of_nat (S n)) == inject_Z (Z.of_nat n) + 1.
Proof. rewrite Nat2Z.inj_succ; unfold Z.succ; rewrite inject_Z_plus; reflexivity. Qed.

Lemma sum_bounds (lo hi : Q) (l : list Q) :
  Forall (fun x => lo <= x <= hi) l ->
  lo * inject_Z (Z.of_nat (List.length l)) <= fold_right Qplus 0 l /\
  fold_right Qplus 0 l <= hi * inject_Z (Z.of_nat (List.length l)).
Proof.
  induction 1 as [|x l [Hx1 Hx2] _ [IH1 IH2]]; simpl List.length; cbn [fold_right].
  - change (inject_Z (Z.of_nat 0)) with 0; rewrite !Qmult_0_r; split; apply Qle_refl.
  - rewrite inject_succ; split; lra.
Qed.

(** when every period of the schedule has a rate in [[lo, hi]], the
    [averageRate] of a successful [calculate] lies in [[lo, hi]] too. *)
Theorem averageRate_bounds (c : LoanConfiguration) (res : LoanResult) (lo hi : Q) :
  calculate c = inr res ->
  (forall p, In p (interestRateSchedule c) -> lo <= rate p <= hi) ->
  lo <= averageRate res <= hi.
Proof.
  unfold calculate; destruct (validate c) as [|e errs] eqn:Ev; [|discriminate].
  intros H Hb; injection H as <-; cbn [averageRate].
  destruct (validate_ok c Ev) as [_ Hne].
  destruct (calc_loop_rows c (Z.to_nat (baseTenureMonths c * 3))
              (mkState 0 (Some (principal c)) (Some (calculateInitialEMI c)) (Some 0) (Some 0) []) Hne)
    as [[_ [_ H3]] _].
  { split; [cbn; lia|split; [reflexivity|constructor]]. }
  unfold calculateAverageRate.
  destruct (st_schedule _) as [|r rs] eqn:Es.
  - destruct (interestRateSchedule c) as [|p ps]; [contradiction|].
    apply Hb; left; reflexivity.
  - assert (HF : Forall (fun x => lo <= x <= hi) (map row_rate (r :: rs))).
    { apply Forall_map. eapply Forall_impl; [|exact H3].
      intros row Hin. apply in_map_iff in Hin as [p [Hp Hin]]. rewrite <- Hp; apply Hb, Hin. }
    destruct (sum_bounds lo hi _ HF) as [S1 S2].
    rewrite length_map in S1, S2.
    assert (Hn : 0 < inject_Z (Z.of_nat (List.length (r :: rs)))).
    { simpl List.length; rewrite inject_succ.
      assert (0 <= inject_Z (Z.of_nat (List.length rs))) by
        (change 0 with (inject_Z 0); rewrite <- Zle_Qle; lia). lra. }
    rewrite sum_rates, Qplus_0_l.
    split; [apply Qle_shift_div_l|apply Qle_shift_div_r]; assumption.
Qed.

Lemma averageRate_bounds_witness :
  exists res, calculate LoanExamples.two_rates = inr res /\ 8 <= averageRate res <= 19 # 2.
Proof.
  destruct (calculate LoanExamples.two_rates) as [errs|res] eqn:E; [vm_compute in E; discriminate|].
  exists res; split; [reflexivity|].
  apply (averageRate_bounds LoanExamples.two_rates res 8 (19 # 2) E).
  intros p Hp; simpl in Hp; repeat destruct Hp as [<-|Hp]; try contradiction;
    split; vm_compute; discriminate.
Defined.

Lemma calculate_month_rows_witness :
  exists res, calculate LoanExamples.two_rates = inr res /\ months res = 13%Z /\
  (0 <= months res <= 3 * baseTenureMonths LoanExamples.two_rates)%Z /\
  (0 <= originalMonths res <= 2 * baseTenureMonths LoanExamples.two_rates)%Z /\
  map row_month (amortizationSchedule res) = map Z.of_nat (seq 1 (Z.to_nat (months res))).
Proof.
  destruct (calculate LoanExamples.two_rates) as [errs|res] eqn:E; [vm_compute in E; discriminate|].
  exists res; split; [reflexivity|split; [vm_compute in E; injection E as <-; reflexivity|]].
  apply (calculate_month_rows LoanExamples.two_rates res E).
Defined.

End LoanResultBounds.

Module WithdrawalProofs.
Import Withdrawal WithdrawalSpec.

Lemma wl_S k month adj infl mr balance tw cw rows :
  withdraw_loop (S k) month adj infl mr balance tw cw rows =
  let year := Loan.yearOfLoan month in
  let w :=
    if adj && (1 <? month)%Z && (Z.rem (month - 1) 12 =? 0)%Z
    then Qred (cw * (1 + infl / 100))
    else cw in
  if Qltb balance w then (balance, tw, Some month, rows)
  else
    let b1 := Qred (balance - w) in
    let tw' := Qred (tw + w) in
    let b2 := if Qltb 0 b1 then Qred (b1 * (1 + mr)) else b1 in
    let rows' :=
      if (Z.rem month 6 =? 0)%Z || (month =? 1)%Z || Qle_bool b2 0
      then rows ++ [mkWithdrawalRow month year (js_max b2 0) w tw']
      else rows in
    if Qle_bool b2 0 then (b2, tw', Some month, rows')
    else withdraw_loop k (month + 1) adj infl mr b2 tw' w rows'.
Proof. reflexivity. Qed.

Lemma depleted_range (fuel : nat) : forall month adj infl mr balance tw cw rows m,
  loop_depletedAt (withdraw_loop fuel month adj infl mr balance tw cw rows) = Some m ->
  (month <= m < month + Z.of_nat fuel)%Z.
Proof.
  induction fuel as [|k IH]; intros month adj infl mr balance tw cw rows m H;
    [discriminate|].
  rewrite wl_S in H; cbv zeta in H.
  destruct (Qltb balance _); [injection H as <-; lia|].
  destruct (Qle_bool _ 0); [injection H as <-; lia|].
  apply IH in H; lia.
Qed.

(** a plan that runs out of money reports a depletion month
    between [1] and [years * 12]. *)
Theorem depletedAt_range (corpus w : Q) (years : nat) (R infl : Q) (adj : bool) (m : Z) :
  depletedAt (calculate corpus w years R infl adj) = Some m ->
  (1 <= m <= Z.of_nat years * 12)%Z.
Proof.
  unfold calculate; cbv zeta.
  pose proof (depleted_range (years * 12) 1 adj infl (R / 100 / 12) corpus 0 w [] m) as H.
  destruct (withdraw_loop _ _ _ _ _ _ _ _ _) as [[[b t] d] rows]; cbn [depletedAt].
  intro Hd; specialize (H Hd); lia.
Qed.

Lemma depletedAt_range_witness :
  depletedAt (calculate 50000 1000 10 8 6 true) = Some 54%Z /\ (1 <= 54 <= Z.of_nat 10 * 12)%Z.
Proof.
  split; [vm_compute; reflexivity|].
  apply (depletedAt_range 50000 1000 10 8 6 true 54); vm_compute; reflexivity.
Defined.

Lemma withdrawn_flat (fuel : nat) : forall month infl mr balance tw cw rows,
  loop_depletedAt (withdraw_loop fuel month false infl mr balance tw cw rows) = None ->
  snd (fst (fst (withdraw_loop fuel month false infl mr balance tw cw rows))) ==
    tw + cw * inject_Z (Z.of_nat fuel).
Proof.
  induction fuel as [|k IH]; intros month infl mr balance tw cw rows H.
  - simpl; ring.
  - rewrite wl_S in H |- *; cbv zeta in H |- *. cbn [andb] in H |- *.
    destruct (Qltb balance cw); [discriminate|].
    destruct (Qle_bool _ 0); [discriminate|].
    rewrite (IH _ _ _ _ _ _ _ H), Qred_correct, Nat2Z.inj_succ.
    unfold Z.succ; rewrite inject_Z_plus; ring.
Qed.

(** without inflation adjustment, a plan that lasts its whole
    duration has withdrawn exactly [monthlyWithdrawal * years * 12]. *)
Theorem totalWithdrawn_flat (corpus w : Q) (years : nat) (R infl : Q) :
  depletedAt (calculate corpus w years R infl false) = None ->
  totalWithdrawn (calculate corpus w years R infl false) ==
    w * inject_Z (Z.of_nat years) * 12.
Proof.
  unfold calculate; cbv zeta.
  pose proof (withdrawn_flat (years * 12) 1 infl (R / 100 / 12) corpus 0 w []) as H.
  destruct (withdraw_loop _ _ _ _ _ _ _ _ _) as [[[b t] d] rows]; cbn [depletedAt totalWithdrawn].
  intro Hd; rewrite (H Hd), Nat2Z.inj_mul, inject_Z_mult; cbn [fst snd].
  change (inject_Z (Z.of_nat 12)) with 12; ring.
Qed.

Lemma totalWithdrawn_flat_witness :
  depletedAt (calculate 500000 1000 10 8 6 false) = None /\
  totalWithdrawn (calculate 500000 1000 10 8 6 false) == 1000 * inject_Z (Z.of_nat 10) * 12.
Proof.
  split; [vm_compute; reflexivity|].
  apply totalWithdrawn_flat; vm_compute; reflexivity.
Defined.

Lemma wstep_le (adj : bool) (month : Z) (infl cw1 cw2 : Q) :
  cw2 <= cw1 -> (cw1 == cw2 \/ 0 <= 1 + infl / 100) ->
  let w1 := if adj && (1 <? month)%Z && (Z.rem (month - 1) 12 =? 0)%Z
            then Qred (cw1 * (1 + infl / 100)) else cw1 in
  let w2 := if adj && (1 <? month)%Z && (Z.rem (month - 1) 12 =? 0)%Z
            then Qred (cw2 * (1 + infl / 100)) else cw2 in
  w2 <= w1 /\ (w1 == w2 \/ 0 <= 1 + infl / 100).
Proof.
  intros Hc Hq; cbv zeta.
  destruct (adj && (1 <? month)%Z && (Z.rem (month - 1) 12 =? 0)%Z); [|split; assumption].
  rewrite !Qred_correct.
  destruct Hq as [He|Hq].
  - rewrite He; split; [apply Qle_refl|left; reflexivity].
  - split; [apply Qmult_le_compat_r; assumption|right; exact Hq].
Qed.

Lemma withdraw_loop_mono2 (fuel : nat) :
  forall month adj infl mr1 mr2 b1 b2 tw1 tw2 cw1 cw2 rows1 rows2,
  mr1 <= mr2 -> b1 <= b2 -> cw2 <= cw1 -> (cw1 == cw2 \/ 0 <= 1 + infl / 100) ->
  depletion_leb (loop_depletedAt (withdraw_loop fuel month adj infl mr1 b1 tw1 cw1 rows1))
                (loop_depletedAt (withdraw_loop fuel month adj infl mr2 b2 tw2 cw2 rows2)) = true.
Proof.
  induction fuel as [|k IH];
    intros month adj infl mr1 mr2 b1 b2 tw1 tw2 cw1 cw2 rows1 rows2 Hm Hb Hc Hq;
    [reflexivity|].
  pose proof (WithdrawalMonotone.depleted_ge (S k) month adj infl mr2 b2 tw2 cw2 rows2) as G.
  destruct (wstep_le adj month infl cw1 cw2 Hc Hq) as [Hw Hq'].
  rewrite (wl_S k month adj infl mr1 b1); cbv zeta.
  set (w1 := if adj && (1 <? month)%Z && (Z.rem (month - 1) 12 =? 0)%Z
             then Qred (cw1 * (1 + infl / 100)) else cw1) in *.
  set (w2 := if adj && (1 <? month)%Z && (Z.rem (month - 1) 12 =? 0)%Z
             then Qred (cw2 * (1 + infl / 100)) else cw2) in *.
  destruct (Qltb b1 w1) eqn:E1; [exact G|].
  set (B1 := Qred (b1 - w1)).
  set (C1 := if Qltb 0 B1 then Qred (B1 * (1 + mr1)) else B1).
  destruct (Qle_bool C1 0) eqn:F1; [exact G|].
  clear G.
  rewrite wl_S; cbv zeta; fold w2.
  apply LoanMonotone.Qltb_false in E1.
  apply LoanMonotone.Qle_bool_false in F1.
  assert (E2 : Qltb b2 w2 = false).
  { destruct (Qltb b2 w2) eqn:E2; [|reflexivity].
    apply LoanMonotone.Qltb_true in E2; lra. }
  rewrite E2.
  set (B2 := Qred (b2 - w2)).
  assert (HB : B1 <= B2) by (unfold B1, B2; rewrite !Qred_correct; lra).
  unfold C1 in F1.
  destruct (Qltb 0 B1) eqn:P1; [|apply LoanMonotone.Qltb_false in P1; lra].
  apply LoanMonotone.Qltb_true in P1.
  rewrite Qred_correct in F1.
  assert (Hp : 0 < 1 + mr1).
  { destruct (Qlt_le_dec 0 (1 + mr1)) as [H|H]; [exact H|].
    exfalso. assert (B1 * (1 + mr1) <= 0).
    { setoid_replace (B1 * (1 + mr1)) with (- (B1 * (- (1 + mr1)))) by ring.
      assert (0 <= B1 * (- (1 + mr1))) by (apply Qmult_le_0_compat; lra). lra. }
    lra. }
  assert (P2 : Qltb 0 B2 = true).
  { destruct (Qltb 0 B2) eqn:P2; [reflexivity|].
    apply LoanMonotone.Qltb_false in P2; lra. }
  rewrite P2.
  assert (HC : B1 * (1 + mr1) <= B2 * (1 + mr2)).
  { apply Qle_trans with (B2 * (1 + mr1)).
    - apply Qmult_le_compat_r; lra.
    - rewrite !(Qmult_comm B2); apply Qmult_le_compat_r; lra. }
  assert (F2 : Qle_bool (Qred (B2 * (1 + mr2))) 0 = false).
  { destruct (Qle_bool (Qred (B2 * (1 + mr2))) 0) eqn:F2; [|reflexivity].
    apply Qle_bool_iff in F2; rewrite Qred_correct in F2; lra. }
  rewrite F2.
  apply IH; [exact Hm | | exact Hw | exact Hq'].
  unfold C1; destruct (Qltb 0 B1) eqn:X;
    [rewrite !Qred_correct; exact HC | apply LoanMonotone.Qltb_false in X; lra].
Qed.

(** for a fixed corpus, duration, return and inflation rate of at
    least -100%, a larger monthly withdrawal never makes the plan last
    longer: it depletes at the same month or earlier. *)
Theorem depletion_monotone_withdrawal (corpus w1 w2 : Q) (years : nat) (R infl : Q) (adj : bool) :
  w1 <= w2 -> -100 <= infl ->
  depletion_leb (depletedAt (calculate corpus w2 years R infl adj))
                (depletedAt (calculate corpus w1 years R infl adj)) = true.
Proof.
  intros Hw Hi.
  assert (Hq : 0 <= 1 + infl / 100).
  { setoid_replace (infl / 100) with (infl * (1 # 100)) by reflexivity. lra. }
  pose proof (withdraw_loop_mono2 (years * 12) 1 adj infl (R / 100 / 12) (R / 100 / 12)
                corpus corpus 0 0 w2 w1 [] [] (Qle_refl _) (Qle_refl _) Hw (or_intror Hq)) as M.
  unfold calculate; cbv zeta.
  destruct (withdraw_loop _ _ _ _ _ corpus _ w2 _) as [[[x1 y1] d1] r1].
  destruct (withdraw_loop _ _ _ _ _ corpus _ w1 _) as [[[x2 y2] d2] r2].
  exact M.
Qed.

Lemma depletion_monotone_withdrawal_witness :
  (1000 <= 2000 /\ -100 <= 6) /\
  depletion_leb (depletedAt (calculate 100000 2000 10 8 6 true))
                (depletedAt (calculate 100000 1000 10 8 6 true)) = true.
Proof.
  split; [split; vm_compute; discriminate|].
  apply depletion_monotone_withdrawal; vm_compute; discriminate.
Defined.

(** for a fixed corpus, withdrawal, duration and inflation rate, a
    higher annual return never makes the plan deplete earlier. *)
Theorem depletion_monotone_return (corpus w : Q) (years : nat) (R1 R2 infl : Q) (adj : bool) :
  R1 <= R2 ->
  depletion_leb (depletedAt (calculate corpus w years R1 infl adj))
                (depletedAt (calculate corpus w years R2 infl adj)) = true.
Proof.
  intros HR.
  assert (Hm : R1 / 100 / 12 <= R2 / 100 / 12).
  { setoid_replace (R1 / 100 / 12) with (R1 * (1 # 1200)) by (field; discriminate).
    setoid_replace (R2 / 100 / 12) with (R2 * (1 # 1200)) by (field; discriminate).
    lra. }
  pose proof (withdraw_loop_mono2 (years * 12) 1 adj infl (R1 / 100 / 12) (R2 / 100 / 12)
                corpus corpus 0 0 w w [] [] Hm (Qle_refl _) (Qle_refl _)
                (or_introl (Qeq_refl _))) as M.
  unfold calculate; cbv zeta.
  destruct (withdraw_loop _ _ _ _ (R1 / 100 / 12) _ _ _ _) as [[[x1 y1] d1] r1].
  destruct (withdraw_loop _ _ _ _ (R2 / 100 / 12) _ _ _ _) as [[[x2 y2] d2] r2].
  exact M.
Qed.

Lemma depletion_monotone_return_witness :
  6 <= 10 /\
  depletion_leb (depletedAt (calculate 100000 1000 10 6 6 true))
                (depletedAt (calculate 100000 1000 10 10 6 true)) = true.
Proof.
  split; [vm_compute; discriminate|].
  apply depletion_monotone_return; vm_compute; discriminate.
Defined.

End WithdrawalProofs.

Module ComparisonProofs.
Import Comparison.

Definition base_ok (c : ScenarioComparison) : Prop :=
  scenarios c = [] \/ exists s, In s (scenarios c) /\ baseScenarioId c = Some (ls_id s).

Lemma apply_op_base_ok (c : ScenarioComparison) (o : ComparisonOp) :
  base_ok c -> base_ok (apply_op c o).
Proof.
  intro H; destruct o as [s|i]; cbn [apply_op].
  - unfold addScenario, base_ok; cbn [scenarios baseScenarioId]; right.
    destruct (List.length (scenarios c ++ [s]) =? 1)%nat eqn:E.
    + exists s; split; [apply in_or_app; right; left; reflexivity|reflexivity].
    + destruct H as [H|[x [Hx Hb]]].
      * rewrite H in E; discriminate.
      * exists x; split; [apply in_or_app; left; exact Hx|exact Hb].
  - unfold removeScenario, base_ok; cbn [scenarios baseScenarioId].
    destruct (filter _ (scenarios c)) as [|s0 rest] eqn:E; [left; reflexivity|right].
    destruct (is_base c i) eqn:B.
    + exists s0; split; [left; reflexivity|reflexivity].
    + destruct H as [H|[x [Hx Hb]]].
      * rewrite H in E; discriminate.
      * exists x; split; [|exact Hb].
        rewrite <- E; apply filter_In; split; [exact Hx|].
        unfold is_base in B; rewrite Hb in B; rewrite B; reflexivity.
Qed.

(** after any sequence of [addScenario] and [removeScenario] calls
    on a new comparison, a non-empty comparison has a base scenario id
    that is the id of one of its scenarios. *)
Theorem base_is_member (ops : list ComparisonOp) :
  let c := fold_left apply_op ops emptyComparison in
  scenarios c = [] \/ exists s, In s (scenarios c) /\ baseScenarioId c = Some (ls_id s).
Proof.
  cbv zeta. change (base_ok (fold_left apply_op ops emptyComparison)).
  assert (H : forall l c, base_ok c -> base_ok (fold_left apply_op l c)).
  { induction l as [|o l IH]; intros c Hc; [exact Hc|apply IH, apply_op_base_ok, Hc]. }
  apply H; left; reflexivity.
Qed.

(** after [removeScenario(id)], [getScenarioById(id)] finds
    nothing, and the lookup of every other id is unchanged. *)
Theorem remove_lookup (c : ScenarioComparison) (i j : string) :
  getScenarioById (removeScenario c i) i = None /\
  (j <> i -> getScenarioById (removeScenario c i) j = getScenarioById c j).
Proof.
  unfold getScenarioById, removeScenario; cbn [scenarios].
  induction (scenarios c) as [|s l [IH1 IH2]]; [split; reflexivity|].
  cbn [filter]. destruct (String.eqb (ls_id s) i) eqn:E; cbn [negb].
  - apply String.eqb_eq in E; split; [exact IH1|].
    intro Hj; cbn [find]; rewrite (IH2 Hj).
    destruct (String.eqb (ls_id s) j) eqn:F; [|reflexivity].
    apply String.eqb_eq in F; congruence.
  - cbn [find]; rewrite E; split; [exact IH1|].
    intro Hj; rewrite (IH2 Hj); reflexivity.
Qed.

(** [remove_lookup] on a comparison of two scenarios. *)
Lemma remove_lookup_witness :
  ("prepay" <> "base")%string /\
  (getScenarioById (removeScenario sample_comparison "base") "base" = None /\
   (("prepay" <> "base")%string ->
    getScenarioById (removeScenario sample_comparison "base") "prepay" =
    getScenarioById sample_comparison "prepay")).
Proof.
  split; [discriminate|]. apply remove_lookup.
Defined.

(** [addScenario] appends: a lookup after it returns what it
    returned before, and only when that was nothing, the new scenario if
    the id is its id. *)
Theorem add_lookup (c : ScenarioComparison) (s : LoanScenario) (j : string) :
  getScenarioById (addScenario c s) j =
  match getScenarioById c j with
  | Some x => Some x
  | None => if String.eqb (ls_id s) j then Some s else None
  end.
Proof.
  unfold getScenarioById, addScenario; cbn [scenarios].
  induction (scenarios c) as [|x l IH]; cbn [app find].
  - destruct (String.eqb (ls_id s) j); reflexivity.
  - destruct (String.eqb (ls_id x) j); [reflexivity|exact IH].
Qed.

Definition has_results (s : LoanScenario) : bool :=
  match ls_results s with Some _ => true | None => false end.

(** [getComparativeMetrics] is empty when the base scenario is
    missing or has no results; otherwise it has one entry per scenario
    with results, in the order of the scenarios. *)
Theorem metrics_entries (c : ScenarioComparison) :
  map cm_id (getComparativeMetrics c) =
  match match baseScenarioId c with Some b => getScenarioById c b | None => None end with
  | Some base => if has_results base then map ls_id (filter has_results (scenarios c)) else []
  | None => []
  end.
Proof.
  unfold getComparativeMetrics.
  destruct (match baseScenarioId c with Some b => getScenarioById c b | None => None end)
    as [base|]; [|reflexivity].
  unfold has_results at 1; destruct (ls_results base) as [br|]; [|reflexivity].
  induction (scenarios c) as [|s l IH]; [reflexivity|].
  cbn [map filter].
  assert (Hh : has_results s = match ls_results s with Some _ => true | None => false end)
    by reflexivity.
  rewrite Hh; destruct (ls_results s); cbn [drop_nulls map]; [f_equal|]; exact IH.
Qed.

Lemma find_unique (l : list LoanScenario) (b : string) (base s : LoanScenario) :
  NoDup (map ls_id l) ->
  find (fun x => String.eqb (ls_id x) b) l = Some base ->
  In s l -> ls_id s = b -> s = base.
Proof.
  induction l as [|x l IH]; intros Hn Hf Hs Hid; [destruct Hs|].
  cbn [map] in Hn; apply NoDup_cons_iff in Hn as [Hx Hn'].
  cbn [find] in Hf; destruct (String.eqb (ls_id x) b) eqn:E.
  - injection Hf as <-; apply String.eqb_eq in E.
    destruct Hs as [<-|Hs]; [reflexivity|].
    exfalso; apply Hx; rewrite E, <- Hid; apply in_map, Hs.
  - destruct Hs as [<-|Hs].
    + rewrite Hid, String.eqb_refl in E; discriminate.
    + apply IH; assumption.
Qed.

Lemma Qred_sub_self (x : Q) : Qred (x - x) = 0.
Proof. apply (Qred_complete (x - x) 0); ring. Qed.

(** when the scenario ids are distinct, the entry of
    [getComparativeMetrics] marked [isBase] shows no tenure reduced and,
    when its total interest is a number, no interest saved. *)
Theorem metrics_base_zero (c : ScenarioComparison) (m : ComparativeMetric) :
  NoDup (map ls_id (scenarios c)) ->
  In m (getComparativeMetrics c) -> cm_isBase m = true ->
  cm_tenureReducedVsBase m = 0%Z /\
  cm_interestSavedVsBase m =
    match cm_totalInterest m with Some _ => Some 0 | None => None end.
Proof.
  intros Hn Hm Hb; unfold getComparativeMetrics in Hm.
  destruct (baseScenarioId c) as [b|] eqn:Eb; [|destruct Hm].
  destruct (getScenarioById c b) as [base|] eqn:Ef; [|destruct Hm].
  destruct (ls_results base) as [br|] eqn:Er; [|destruct Hm].
  assert (Hgen : forall l, incl l (scenarios c) ->
    In m (drop_nulls (map (fun s => match ls_results s with
      | None => None
      | Some r => Some (mkMetric (ls_id s) (ls_name s) (Loan.totalInterest r)
                        (Loan.totalPayment r) (Loan.months r)
                        (jsub (Loan.totalInterest br) (Loan.totalInterest r))
                        (Loan.months br - Loan.months r)%Z (is_base c (ls_id s)))
      end) l)) ->
    exists s r, In s (scenarios c) /\ ls_results s = Some r /\
      m = mkMetric (ls_id s) (ls_name s) (Loan.totalInterest r)
            (Loan.totalPayment r) (Loan.months r)
            (jsub (Loan.totalInterest br) (Loan.totalInterest r))
            (Loan.months br - Loan.months r)%Z (is_base c (ls_id s))).
  { induction l as [|s l IH]; intros Hi H; [destruct H|].
    cbn [map] in H; destruct (ls_results s) as [r|] eqn:Es; cbn [drop_nulls] in H.
    - destruct H as [<-|H].
      + exists s, r; split; [apply Hi; left; reflexivity|split; [exact Es|reflexivity]].
      + apply IH; [intros x Hx; apply Hi; right; exact Hx|exact H].
    - apply IH; [intros x Hx; apply Hi; right; exact Hx|exact H]. }
  destruct (Hgen (scenarios c) (incl_refl _) Hm) as [s [r [Hs [Hr ->]]]].
  cbn [cm_isBase] in Hb; unfold is_base in Hb; rewrite Eb in Hb.
  apply String.eqb_eq in Hb.
  assert (s = base) as -> by (apply (find_unique (scenarios c) b base s Hn Ef Hs); auto).
  rewrite Er in Hr; injection Hr as ->; cbn [cm_tenureReducedVsBase cm_interestSavedVsBase cm_totalInterest].
  split; [lia|].
  destruct (Loan.totalInterest r); cbn [jsub]; [rewrite Qred_sub_self; reflexivity|reflexivity].
Qed.

(** [metrics_base_zero] at the base entry of a comparison of two
    scenarios. *)
Lemma metrics_base_zero_witness :
  exists m,
  (NoDup (map ls_id (scenarios sample_comparison)) /\
   In m (getComparativeMetrics sample_comparison) /\ cm_isBase m = true) /\
  (cm_tenureReducedVsBase m = 0%Z /\
   cm_interestSavedVsBase m =
     match cm_totalInterest m with Some _ => Some 0 | None => None end).
Proof.
  destruct (getComparativeMetrics sample_comparison) as [|m rest] eqn:E;
    [vm_compute in E; discriminate|].
  exists m; rewrite <- E.
  assert (Hn : NoDup (map ls_id (scenarios sample_comparison))).
  { apply NoDup_cons; [intros [H|[]]; discriminate H|].
    apply NoDup_cons; [intros []|apply NoDup_nil]. }
  assert (Hb : cm_isBase m = true) by (vm_compute in E; injection E as <- _; reflexivity).
  assert (Hm : In m (getComparativeMetrics sample_comparison)) by (rewrite E; left; reflexivity).
  split; [split; [exact Hn|split; [exact Hm|exact Hb]]|].
  apply (metrics_base_zero sample_comparison m Hn Hm Hb).
Defined.

End ComparisonProofs.

Module PortfolioProofs.
Import Portfolio.

Definition sumQ (l : list Q) : Q := fold_right Qplus 0 l.

Lemma totalValue_sum (l : list AssetAllocation) :
  totalValue l == sumQ (map aa_currentValue l).
Proof.
  unfold totalValue.
  assert (H : forall a, fold_left (fun s x => s + aa_currentValue x) l a ==
                        a + sumQ (map aa_currentValue l)).
  { induction l as [|x r IH]; intro a; unfold sumQ in *; cbn [fold_left fold_right map]; [ring|rewrite IH; ring]. }
  rewrite H; ring.
Qed.

Lemma sum_map_scale (l : list AssetAllocation) (f : AssetAllocation -> Q) (k : Q) :
  sumQ (map (fun a => f a * k) l) == sumQ (map f l) * k.
Proof. induction l as [|x r IH]; unfold sumQ in *; cbn [fold_right map]; [ring|rewrite IH; ring]. Qed.

(** when the portfolio's total value is positive, the current
    percentages [calculateCurrentAllocation] reports sum to 100. *)
Theorem currentPercent_sum (l : list AssetAllocation) :
  0 < totalValue l ->
  sumQ (map ca_currentPercent (calculateCurrentAllocation l)) == 100.
Proof.
  intro Ht; unfold calculateCurrentAllocation; rewrite map_map; cbn [ca_currentPercent].
  destruct (Qltb 0 (totalValue l)) eqn:E;
    [|apply LoanMonotone.Qltb_false in E; lra].
  set (T := totalValue l) in *.
  rewrite (sum_map_scale l (fun a => aa_currentValue a / T) 100).
  unfold Qdiv. rewrite (sum_map_scale l aa_currentValue (/ T)).
  rewrite <- totalValue_sum; fold T. field. intro H; rewrite H in Ht; discriminate.
Qed.

Lemma currentPercent_sum_witness :
  0 < totalValue [mkAllocation "equity" 5000 60000 60; mkAllocation "debt" 2000 40000 40] /\
  sumQ (map ca_currentPercent (calculateCurrentAllocation
    [mkAllocation "equity" 5000 60000 60; mkAllocation "debt" 2000 40000 40])) == 100.
Proof.
  split; [vm_compute; reflexivity|].
  apply currentPercent_sum; vm_compute; reflexivity.
Defined.

(** when the target percentages sum to 100, the target values
    [calculateRebalancing] reports sum to the total value and the
    rebalance amounts sum to 0 (the buys match the sells). *)
Theorem rebalance_balanced (l : list AssetAllocation) :
  sumQ (map aa_targetPercent l) == 100 ->
  sumQ (map rb_targetValue (calculateRebalancing l)) == totalValue l /\
  sumQ (map rb_rebalanceAmount (calculateRebalancing l)) == 0.
Proof.
  intro Hp; unfold calculateRebalancing; rewrite !map_map; cbn [rb_targetValue rb_rebalanceAmount].
  set (T := totalValue l).
  assert (HT : sumQ (map (fun a => aa_targetPercent a / 100 * T) l) == T).
  { rewrite (sum_map_scale l (fun a => aa_targetPercent a / 100) T).
    unfold Qdiv; rewrite (sum_map_scale l aa_targetPercent (/ 100)), Hp; field. }
  split; [exact HT|].
  assert (HS : forall k : list AssetAllocation,
    sumQ (map (fun a => aa_targetPercent a / 100 * T - aa_currentValue a) k) ==
    sumQ (map (fun a => aa_targetPercent a / 100 * T) k) - sumQ (map aa_currentValue k)).
  { induction k as [|x r IH]; unfold sumQ in *; cbn [fold_right map]; [ring|rewrite IH; ring]. }
  rewrite HS, HT; unfold T; rewrite totalValue_sum; ring.
Qed.

Lemma rebalance_balanced_witness :
  sumQ (map aa_targetPercent [mkAllocation "equity" 5000 70000 60; mkAllocation "debt" 2000 30000 40]) == 100 /\
  sumQ (map rb_rebalanceAmount (calculateRebalancing
    [mkAllocation "equity" 5000 70000 60; mkAllocation "debt" 2000 30000 40])) == 0.
Proof.
  split; [vm_compute; reflexivity|].
  apply rebalance_balanced; vm_compute; reflexivity.
Defined.

End PortfolioProofs.

Module GoalSeekerBounds.
Import GoalSeeker SIPClosedForm.

Lemma Qpow_nonneg (q : Q) (n : nat) : 0 <= q -> 0 <= Qpow q n.
Proof.
  intro H; induction n as [|n IH]; cbn [Qpow]; [discriminate|].
  apply Qmult_le_0_compat; assumption.
Qed.

Lemma Qpow_mono (a b : Q) (n : nat) : 0 <= a -> a <= b -> Qpow a n <= Qpow b n.
Proof.
  intros Ha Hab; induction n as [|n IH]; cbn [Qpow]; [apply Qle_refl|].
  apply Qle_trans with (b * Qpow a n).
  - apply Qmult_le_compat_r; [exact Hab|apply Qpow_nonneg, Ha].
  - rewrite !(Qmult_comm b); apply Qmult_le_compat_r; [exact IH|lra].
Qed.

Lemma annuity_nonneg (q : Q) (n : nat) : 0 <= q -> 0 <= annuity q n.
Proof.
  intro H; induction n as [|n IH]; cbn [annuity]; [apply Qle_refl|].
  pose proof (Qpow_nonneg q (S n) H); lra.
Qed.

Lemma annuity_mono_q (a b : Q) (n : nat) : 0 <= a -> a <= b -> annuity a n <= annuity b n.
Proof.
  intros Ha Hab; induction n as [|n IH]; cbn [annuity]; [apply Qle_refl|].
  pose proof (Qpow_mono a b (S n) Ha Hab); lra.
Qed.

Lemma annuity_mono_n (q : Q) (n m : nat) : 0 <= q -> (n <= m)%nat -> annuity q n <= annuity q m.
Proof.
  intros Hq Hnm; induction Hnm as [|m Hnm IH]; [apply Qle_refl|].
  cbn [annuity]; pose proof (Qpow_nonneg q (S m) Hq); lra.
Qed.

Lemma fv_annuity (P : Q) (years : nat) (R : Q) :
  calculateFutureValue P years R == P * annuity (1 + R / 100 / 12) (years * 12).
Proof.
  unfold calculateFutureValue; cbv zeta.
  destruct (Qeq_bool (R / 100 / 12) 0) eqn:Hr.
  - apply Qeq_bool_eq in Hr.
    assert (Hq : 1 + R / 100 / 12 == 1) by (rewrite Hr; ring).
    rewrite (annuity_one _ _ Hq); reflexivity.
  - apply Qeq_bool_neq in Hr.
    rewrite Qred_correct.
    pose proof (annuity_closed (1 + R / 100 / 12) (years * 12)) as A.
    set (X := Qpow (1 + R / 100 / 12) (years * 12)) in *.
    set (Y := annuity (1 + R / 100 / 12) (years * 12)) in *.
    assert (HY : Y == (X - 1) * (1 + R / 100 / 12) / (R / 100 / 12)).
    { rewrite <- A. field. intro H; apply Hr. rewrite H; reflexivity. }
    rewrite HY. field. intro H; apply Hr; rewrite H; reflexivity.
Qed.

Lemma growth_nonneg (R : Q) : -1200 <= R -> 0 <= 1 + R / 100 / 12.
Proof.
  intro H. setoid_replace (R / 100 / 12) with (R * (1 # 1200)) by (field; discriminate).
  lra.
Qed.

Lemma growth_mono (R1 R2 : Q) : R1 <= R2 -> 1 + R1 / 100 / 12 <= 1 + R2 / 100 / 12.
Proof.
  intro H. setoid_replace (R1 / 100 / 12) with (R1 * (1 # 1200)) by (field; discriminate).
  setoid_replace (R2 / 100 / 12) with (R2 * (1 # 1200)) by (field; discriminate).
  lra.
Qed.

Lemma fv_mono (P1 P2 : Q) (y1 y2 : nat) (R1 R2 : Q) :
  0 <= P1 -> P1 <= P2 -> (y1 <= y2)%nat -> -1200 <= R1 -> R1 <= R2 ->
  calculateFutureValue P1 y1 R1 <= calculateFutureValue P2 y2 R2.
Proof.
  intros HP1 HP HY HR1 HR.
  rewrite !fv_annuity.
  set (q1 := 1 + R1 / 100 / 12); set (q2 := 1 + R2 / 100 / 12).
  assert (Hq1 : 0 <= q1) by (apply growth_nonneg; exact HR1).
  assert (Hq : q1 <= q2) by (apply growth_mono; exact HR).
  pose proof (annuity_mono_q q1 q2 (y1 * 12) Hq1 Hq) as A1.
  pose proof (annuity_mono_n q2 (y1 * 12) (y2 * 12) ltac:(lra) ltac:(lia)) as A2.
  pose proof (annuity_nonneg q2 (y2 * 12) ltac:(lra)) as A3.
  clearbody q1 q2.
  apply Qle_trans with (P1 * annuity q2 (y2 * 12)).
  - rewrite !(Qmult_comm P1); apply Qmult_le_compat_r; [lra|exact HP1].
  - apply Qmult_le_compat_r; assumption.
Qed.

(** [calculateFutureValue] is monotone: a SIP that is not
    negative and not smaller, a duration that is not shorter and a return
    that is not lower (and above -1200%, where [1 + r] stays non-negative)
    never give a smaller future value. *)
Theorem fv_monotone (P1 P2 : Q) (y1 y2 : nat) (R1 R2 : Q) :
  0 <= P1 -> P1 <= P2 -> (y1 <= y2)%nat -> -1200 <= R1 -> R1 <= R2 ->
  calculateFutureValue P1 y1 R1 <= calculateFutureValue P2 y2 R2.
Proof. apply fv_mono. Qed.
Lemma fv_monotone_witness :
  (0 <= 5000 /\ 5000 <= 6000 /\ (10 <= 12)%nat /\ -1200 <= 8 /\ 8 <= 10) /\
  calculateFutureValue 5000 10 8 <= calculateFutureValue 6000 12 10.
Proof.
  split; [repeat split; (lia || (vm_compute; discriminate))|].
  apply fv_monotone; (lia || (vm_compute; discriminate)).
Defined.


Lemma success_up (T sip : Q) (y : nat) (R1 R2 : Q) :
  0 <= sip -> -1200 <= R1 -> R1 <= R2 ->
  Qle_bool T (calculateFutureValue sip y R1) = true ->
  Qle_bool T (calculateFutureValue sip y R2) = true.
Proof.
  intros Hs HR1 HR H; apply Qle_bool_iff in H; apply Qle_bool_iff.
  apply Qle_trans with (1 := H), fv_mono; (lra || lia).
Qed.

(** with a SIP that is not negative, a volatility that is not
    negative and a worst-case return above -1200%, the recommendation of
    [calculateGoalProbability] is decided by two scenarios: "Likely to
    achieve goal" exactly when the realistic return reaches the target,
    else "Moderate chance" exactly when the optimistic one does. *)
Theorem goal_probability_recommendation (sip target : Q) (years : nat) (e v : Q) :
  0 <= sip -> 0 <= v -> -1200 <= e - v ->
  GoalProbability.recommendation
    (GoalProbability.calculateGoalProbability sip target years e v) =
  if Qle_bool target (calculateFutureValue sip years e) then "Likely to achieve goal"%string
  else if Qle_bool target (calculateFutureValue sip years (e + v / 2))
  then "Moderate chance of achieving goal"%string
  else "Consider increasing SIP or duration"%string.
Proof.
  intros Hs Hv He.
  assert (Hv2 : v / 2 == v * (1 # 2)) by reflexivity.
  assert (U1 := success_up target sip years (e - v) (e - v / 2) Hs He ltac:(lra)).
  assert (U2 := success_up target sip years (e - v / 2) e Hs ltac:(lra) ltac:(lra)).
  assert (U3 := success_up target sip years e (e + v / 2) Hs ltac:(lra) ltac:(lra)).
  assert (U4 := success_up target sip years (e + v / 2) (e + v) Hs ltac:(lra) ltac:(lra)).
  unfold GoalProbability.calculateGoalProbability, GoalProbability.goal_scenarios.
  cbn [map filter List.length snd GoalProbability.o_success GoalProbability.recommendation].
  destruct (Qle_bool target (calculateFutureValue sip years (e - v)));
  destruct (Qle_bool target (calculateFutureValue sip years (e - v / 2)));
  destruct (Qle_bool target (calculateFutureValue sip years e));
  destruct (Qle_bool target (calculateFutureValue sip years (e + v / 2)));
  destruct (Qle_bool target (calculateFutureValue sip years (e + v)));
  first [ discriminate (U1 eq_refl) | discriminate (U2 eq_refl)
        | discriminate (U3 eq_refl) | discriminate (U4 eq_refl) | reflexivity ].
Qed.

Lemma goal_probability_recommendation_witness :
  (0 <= 10000 /\ 0 <= 4 /\ -1200 <= 12 - 4) /\
  GoalProbability.recommendation
    (GoalProbability.calculateGoalProbability 10000 2000000 10 12 4) =
  if Qle_bool 2000000 (calculateFutureValue 10000 10 12) then "Likely to achieve goal"%string
  else if Qle_bool 2000000 (calculateFutureValue 10000 10 (12 + 4 / 2))
  then "Moderate chance of achieving goal"%string
  else "Consider increasing SIP or duration"%string.
Proof.
  split; [repeat split; vm_compute; discriminate|].
  apply goal_probability_recommendation; vm_compute; discriminate.
Defined.


Lemma bisect_bounds (fv : Q -> Q) (target : Q) (fuel : nat) : forall low high,
  low <= high -> low <= bisect fv target fuel low high <= high.
Proof.
  induction fuel as [|k IH]; intros low high H; cbn [bisect].
  - setoid_replace ((low + high) / 2) with ((low + high) * (1 # 2)) by reflexivity. lra.
  - destruct (Qltb 1 (high - low));
      [|setoid_replace ((low + high) / 2) with ((low + high) * (1 # 2)) by reflexivity; lra].
    assert (Hm : low <= Qred ((low + high) / 2) <= high).
    { rewrite Qred_correct.
      setoid_replace ((low + high) / 2) with ((low + high) * (1 # 2)) by reflexivity. lra. }
    destruct (Qltb (Qabs (fv (Qred ((low + high) / 2)) - target)) tolerance); [exact Hm|].
    destruct (Qltb (fv (Qred ((low + high) / 2))) target).
    + pose proof (IH (Qred ((low + high) / 2)) high ltac:(lra)); lra.
    + pose proof (IH low (Qred ((low + high) / 2)) ltac:(lra)); lra.
Qed.

(** for a target of at least 1200, the bisections of
    [binarySearchMethod] and [calculateStepUpSIP] never leave their
    initial bracket: the SIP they return lies in [[100, target / 12]]. *)
Theorem bisection_in_bracket (target : Q) (years : nat) (R su : Q) :
  1200 <= target ->
  (100 <= binarySearchMethod target years R <= target / 12) /\
  (100 <= calculateStepUpSIP target years R su <= target / 12).
Proof.
  intro HT.
  assert (H : 100 <= target / 12).
  { setoid_replace (target / 12) with (target * (1 # 12)) by reflexivity. lra. }
  split; apply bisect_bounds; exact H.
Qed.

Lemma bisection_in_bracket_witness :
  1200 <= 1000000 /\
  (100 <= binarySearchMethod 1000000 10 12 <= 1000000 / 12) /\
  (100 <= calculateStepUpSIP 1000000 10 12 10 <= 1000000 / 12).
Proof.
  split; [vm_compute; discriminate|].
  apply bisection_in_bracket; vm_compute; discriminate.
Defined.

End GoalSeekerBounds.
